(** * ScholarVault document-ingestion pipeline

    A shallow embedding of [migration/master_migration.py] (and of the older
    [backend/scripts/master_migration.py] where the two differ): the OCR text
    normalizer, the confidence average, the adaptive PDF chunking loop, the
    OCR dispatcher, the retry executor, the storage-key builder, the per-file
    pipeline and the batch coordinator.

    Python values are modelled as follows.
    - [str] is a list of Unicode code points ([N]); literals are written with
      [lit].
    - [int] is [Z]; [float] (confidence scores, retry delays) is modelled by
      exact rationals [Q], so rounding is not part of this model.
    - A call that may raise returns [res A]: [Ok a] or [Raise e].
    - Effectful code threads an event log through a small state-and-exception
      monad [M]; the answers of the external services (object store, record
      store, OCR service, file system) are read from an environment record.
    - Calls to [logger] have no influence on any result and are left out. *)

From Equations Require Import Equations.
From Equations.Prop Require Import Logic.
From Stdlib Require Import Ascii String.
From Stdlib Require DecimalString.
From Stdlib Require Import List ZArith NArith QArith Bool Lia Permutation.
Import ListNotations.

Set Implicit Arguments.
Unset Strict Implicit.

(* ===================================================================== *)
(** * Python strings *)
(* ===================================================================== *)

Module PyStr.

Definition char := N.
Definition str := list char.

(** A literal of the source, written as a Rocq string (ASCII only). *)
Definition lit (s : string) : str := map N_of_ascii (list_ascii_of_string s).

Definition str_eqb (a b : str) : bool :=
  if list_eq_dec N.eq_dec a b then true else false.

Definition LF : char := 10%N.
Definition TAB : char := 9%N.
Definition CR : char := 13%N.
Definition SPACE : char := 32%N.

(** [str.isspace] for one code point: the table of CPython's
    [_PyUnicode_IsWhitespace], which is also what [str.split()] and
    [str.strip()] without arguments use. *)
Definition is_space (c : char) : bool :=
  ((9 <=? c) && (c <=? 13) || (28 <=? c) && (c <=? 32)
   || (c =? 133) || (c =? 160) || (c =? 5760)
   || (8192 <=? c) && (c <=? 8202)
   || (c =? 8232) || (c =? 8233) || (c =? 8239) || (c =? 8287)
   || (c =? 12288))%N.

(** [s.split()]: the maximal runs of non-whitespace characters. [cur] is the
    word being read. *)
Fixpoint split_from (cur : str) (s : str) : list str :=
  match s with
  | [] => match cur with [] => [] | _ => [cur] end
  | c :: s' =>
      if is_space c
      then match cur with
           | [] => split_from [] s'
           | _ => cur :: split_from [] s'
           end
      else split_from (cur ++ [c]) s'
  end.

Definition split (s : str) : list str := split_from [] s.

(** [sep.join(words)]. *)
Fixpoint join (sep : str) (words : list str) : str :=
  match words with
  | [] => []
  | [w] => w
  | w :: ws => w ++ sep ++ join sep ws
  end.

Fixpoint lstrip (s : str) : str :=
  match s with
  | [] => []
  | c :: s' => if is_space c then lstrip s' else s
  end.

Definition rstrip (s : str) : str := rev (lstrip (rev s)).

(** [s.strip()]. *)
Definition strip (s : str) : str := rstrip (lstrip s).

Fixpoint startswith (s prefix : str) {struct prefix} : bool :=
  match prefix, s with
  | [], _ => true
  | _ :: _, [] => false
  | p :: prefix', c :: s' => (p =? c)%N && startswith s' prefix'
  end.

(** [sub in s]. *)
Fixpoint contains (sub s : str) : bool :=
  startswith s sub ||
  match s with
  | [] => false
  | _ :: s' => contains sub s'
  end.

(** [s.replace(old, new)] for a non-empty [old]: occurrences are replaced
    from left to right without overlap. [skip] counts the characters of an
    occurrence that are still to be dropped. *)
Fixpoint replace_from (old new : str) (skip : nat) (s : str) : str :=
  match s with
  | [] => []
  | c :: s' =>
      match skip with
      | S k => replace_from old new k s'
      | O =>
          if startswith s old
          then new ++ replace_from old new (length old - 1) s'
          else c :: replace_from old new 0 s'
      end
  end.

Definition replace (old new s : str) : str := replace_from old new 0 s.

(** [len(s)]. *)
Definition len (s : str) : Z := Z.of_nat (length s).

(** [s[:n]] for [n >= 0]. *)
Definition take (n : nat) (s : str) : str := firstn n s.

End PyStr.
Import PyStr.

(* ===================================================================== *)
(** * Results and exceptions *)
(* ===================================================================== *)

(** The exception classes the scripts distinguish. Every one of them is a
    subclass of [Exception]; the payload is [str(e)]. *)
Inductive exn : Type :=
| DuplicateRecordError (msg : str)
| RuntimeError (msg : str)
| ValueError (msg : str)
| IndexError (msg : str)
| GoogleAPICallError (msg : str)
| OtherError (msg : str).

Definition exn_str (e : exn) : str :=
  match e with
  | DuplicateRecordError m | RuntimeError m | ValueError m | IndexError m
  | GoogleAPICallError m | OtherError m => m
  end.

Inductive res (A : Type) : Type :=
| Ok (a : A)
| Raise (e : exn).
Arguments Ok {A} a.
Arguments Raise {A} e.

(* ===================================================================== *)
(** * Text normalizer: [clean_ocr_text] *)
(* ===================================================================== *)

Definition OCR_TEXT_MIN_LENGTH : Z := 10.

(** [ord(char) >= 32 or char in '\n\t\r'] *)
Definition keep_char (c : char) : bool :=
  (32 <=? c)%N || (c =? LF)%N || (c =? TAB)%N || (c =? CR)%N.

Definition NL3 : str := [LF; LF; LF].
Definition NL2 : str := [LF; LF].

Lemma startswith_split (p s : str) :
  startswith s p = true -> exists t, s = p ++ t.
Proof.
  revert s; induction p as [|a p IH]; intros s H.
  - exists s. reflexivity.
  - destruct s as [|c s]; [discriminate|]. cbn [startswith] in H.
    apply andb_prop in H. destruct H as [Hac H].
    apply N.eqb_eq in Hac. subst c.
    destruct (IH _ H) as [t ->]. exists t. reflexivity.
Qed.

Lemma startswith_app (p t : str) : startswith (p ++ t) p = true.
Proof.
  induction p as [|a p IH]; [reflexivity|].
  cbn [app startswith]. rewrite N.eqb_refl, IH. reflexivity.
Qed.

Lemma replace_from_skip (old new : str) (k : nat) (s : str) :
  replace_from old new k s = replace_from old new 0 (skipn k s).
Proof.
  revert s; induction k as [|k IH]; intros s; [reflexivity|].
  destruct s as [|c s]; [reflexivity|]. cbn [replace_from skipn]. apply IH.
Qed.

Lemma replace_hit (old new t : str) :
  old <> [] -> replace old new (old ++ t) = new ++ replace old new t.
Proof.
  intros Hne. unfold replace. destruct old as [|a old]; [contradiction|].
  change ((a :: old) ++ t) with (a :: (old ++ t)).
  cbn [replace_from].
  change (a :: (old ++ t)) with ((a :: old) ++ t).
  rewrite startswith_app, replace_from_skip. f_equal. f_equal.
  replace (length (a :: old) - 1)%nat with (length old)
    by (cbn [length]; lia).
  clear. induction old as [|b old IH]; [reflexivity|]. exact IH.
Qed.

Lemma replace_miss (old new : str) (c : char) (s : str) :
  startswith (c :: s) old = false ->
  replace old new (c :: s) = c :: replace old new s.
Proof. intros H. unfold replace. cbn [replace_from]. rewrite H. reflexivity. Qed.

Lemma replace_length_le (old new : str) (n : nat) (s : str) :
  old <> [] -> (length new <= length old)%nat ->
  (length s <= n)%nat -> (length (replace old new s) <= length s)%nat.
Proof.
  intros Hne Hlen. revert s. induction n as [|n IH]; intros [|c s] Hn;
    cbn [length] in *; try lia; try (unfold replace; simpl; lia).
  destruct (startswith (c :: s) old) eqn:E.
  - destruct (startswith_split E) as [t Ht]. rewrite Ht.
    rewrite replace_hit by assumption. rewrite !length_app.
    assert (length (c :: s) = length (old ++ t)) as L by (rewrite Ht; reflexivity).
    cbn [length] in L. rewrite length_app in L.
    destruct old as [|a old]; [contradiction|]. cbn [length] in *.
    specialize (IH t). lia.
  - rewrite replace_miss by assumption. cbn [length]. specialize (IH s). lia.
Qed.

Lemma replace_shrinks (old new : str) (s : str) :
  (length new < length old)%nat ->
  contains old s = true -> (length (replace old new s) < length s)%nat.
Proof.
  intros Hlen. assert (old <> []) as Hne by (intros ->; simpl in Hlen; lia).
  induction s as [|c s IH]; cbn [contains].
  - destruct old; [contradiction|]. discriminate.
  - destruct (startswith (c :: s) old) eqn:E; cbn [orb].
    + intros _. destruct (startswith_split E) as [t Ht]. rewrite Ht.
      rewrite replace_hit by assumption. rewrite !length_app.
      pose proof (@replace_length_le old new (length t) t Hne) as L. lia.
    + intros H. rewrite replace_miss by assumption. cbn [length].
      apply IH in H. lia.
Qed.

(** [while '\n\n\n' in text: text = text.replace('\n\n\n', '\n\n')] *)
Equations collapse_newlines (text : str) : str by wf (length text) lt :=
  collapse_newlines text with inspect (contains NL3 text) := {
    | exist _ true _ => collapse_newlines (replace NL3 NL2 text)
    | exist _ false _ => text }.
Next Obligation. apply replace_shrinks; [simpl; lia | assumption]. Qed.

Definition clean_ocr_text (raw_text : option str) : option str :=
  match raw_text with
  | None => None
  | Some [] => None
  | Some raw =>
      let text := filter keep_char raw in
      let text := join [SPACE] (split text) in
      let text := collapse_newlines text in
      let text := strip text in
      if (OCR_TEXT_MIN_LENGTH <=? len text)%Z then Some text else None
  end.

Example clean_ex1 :
  clean_ocr_text (Some (lit "  Hello   brave new
world  ")) = Some (lit "Hello brave new world").
Proof. reflexivity. Qed.

(* --------------------------------------------------------------------- *)
(** ** Words produced by [split] *)

Definition nonspace (c : char) : Prop := is_space c = false.

(** A word of [split]: not empty and free of whitespace. *)
Definition token (w : str) : Prop := w <> [] /\ Forall nonspace w.

Lemma split_from_words (s cur : str) :
  Forall nonspace cur -> Forall token (split_from cur s).
Proof.
  revert cur. induction s as [|c s IH]; intros cur Hcur; cbn [split_from].
  - destruct cur; constructor; [|constructor]. split; [discriminate|assumption].
  - destruct (is_space c) eqn:E.
    + destruct cur; [apply IH; constructor|].
      constructor; [split; [discriminate|assumption]|]. apply IH. constructor.
    + apply IH. apply Forall_app. split; [assumption|].
      constructor; [exact E|constructor].
Qed.

Lemma split_from_chars (P : char -> Prop) (s cur : str) :
  Forall P cur -> Forall P s -> Forall (Forall P) (split_from cur s).
Proof.
  revert cur. induction s as [|c s IH]; intros cur Hcur Hs; cbn [split_from].
  - destruct cur; constructor; [assumption|constructor].
  - inversion Hs; subst. destruct (is_space c).
    + destruct cur; [apply IH; [constructor|assumption]|].
      constructor; [assumption|]. apply IH; [constructor|assumption].
    + apply IH; [|assumption]. apply Forall_app. split; [assumption|].
      constructor; [assumption|constructor].
Qed.

Lemma split_from_word (w cur rest : str) :
  Forall nonspace w -> split_from cur (w ++ rest) = split_from (cur ++ w) rest.
Proof.
  revert cur. induction w as [|c w IH]; intros cur Hw.
  - rewrite app_nil_r. reflexivity.
  - inversion Hw as [|? ? Hc Hw']; subst. cbn [app split_from].
    unfold nonspace in Hc. rewrite Hc. rewrite IH by assumption.
    rewrite <- app_assoc. reflexivity.
Qed.

Lemma split_join (ws : list str) :
  Forall token ws -> split (join [SPACE] ws) = ws.
Proof.
  unfold split. induction ws as [|w ws IH]; intros H; [reflexivity|].
  inversion H as [|? ? [Hne Hw] Hws]; subst. cbn [join].
  destruct ws as [|w2 ws].
  - rewrite <- (app_nil_r w) at 1. rewrite split_from_word by assumption.
    cbn [app split_from]. destruct w; [contradiction|reflexivity].
  - rewrite split_from_word by assumption. cbn [app split_from].
    change (is_space SPACE) with true. cbv iota.
    rewrite (IH Hws). destruct w; [contradiction|reflexivity].
Qed.

Lemma join_chars (P : char -> Prop) (ws : list str) :
  P SPACE -> Forall (Forall P) ws -> Forall P (join [SPACE] ws).
Proof.
  intros Hsp. induction ws as [|w ws IH]; intros H; [constructor|].
  inversion H; subst. cbn [join]. destruct ws as [|w2 ws]; [assumption|].
  apply Forall_app. split; [assumption|]. constructor; [assumption|].
  apply IH. assumption.
Qed.

Lemma filter_keep_id (s : str) :
  Forall (fun c => keep_char c = true) s -> filter keep_char s = s.
Proof.
  induction 1 as [|c s Hc _ IH]; [reflexivity|].
  cbn [filter]. rewrite Hc, IH. reflexivity.
Qed.

Lemma filter_keep_kept (s : str) :
  Forall (fun c => keep_char c = true) (filter keep_char s).
Proof.
  apply Forall_forall. intros c Hc. apply filter_In in Hc. tauto.
Qed.

(* --------------------------------------------------------------------- *)
(** ** The text after [' '.join(text.split())] *)

(** Single-spaced text: what [' '.join(text.split())] returns. *)
Definition single_spaced (t : str) : Prop :=
  exists ws, Forall token ws /\ t = join [SPACE] ws.

Lemma join_head (ws : list str) :
  Forall token ws -> join [SPACE] ws = [] \/
  exists c t, join [SPACE] ws = c :: t /\ nonspace c.
Proof.
  destruct ws as [|w ws]; [left; reflexivity|]. intros H. right.
  inversion H as [|? ? [Hne Hw] _]; subst.
  destruct w as [|c w]; [contradiction|]. inversion Hw; subst.
  cbn [join]. destruct ws; eexists _, _; (split; [reflexivity|assumption]).
Qed.

Lemma join_last (ws : list str) :
  Forall token ws -> join [SPACE] ws = [] \/
  exists t c, join [SPACE] ws = t ++ [c] /\ nonspace c.
Proof.
  induction ws as [|w ws IH]; [left; reflexivity|]. intros H. right.
  inversion H as [|? ? [Hne Hw] Hws]; subst. cbn [join].
  destruct ws as [|w2 ws].
  - destruct (exists_last Hne) as [t [c ->]]. exists t, c. split; [reflexivity|].
    apply Forall_app in Hw. destruct Hw as [_ Hc]. inversion Hc; assumption.
  - destruct (IH Hws) as [E|[t [c [E Hc]]]].
    + exfalso. inversion Hws as [|? ? [Hne2 _] _]; subst.
      cbn [join] in E. destruct w2; [contradiction|]. destruct ws; discriminate.
    + rewrite E. exists (w ++ [SPACE] ++ t), c. split; [|assumption].
      rewrite <- !app_assoc. reflexivity.
Qed.

Lemma lstrip_head (c : char) (t : str) : nonspace c -> lstrip (c :: t) = c :: t.
Proof. intros H. cbn [lstrip]. unfold nonspace in H. rewrite H. reflexivity. Qed.

Lemma strip_single_spaced (t : str) : single_spaced t -> strip t = t.
Proof.
  intros [ws [Hws ->]]. unfold strip, rstrip.
  assert (lstrip (join [SPACE] ws) = join [SPACE] ws) as ->.
  { destruct (join_head Hws) as [->|[c [t [-> Hc]]]]; [reflexivity|].
    apply lstrip_head. assumption. }
  destruct (join_last Hws) as [->|[t [c [-> Hc]]]]; [reflexivity|].
  rewrite rev_app_distr. cbn [rev app]. rewrite lstrip_head by assumption.
  change (c :: rev t) with ([c] ++ rev t).
  rewrite rev_app_distr, rev_involutive. reflexivity.
Qed.

Lemma startswith_head (a : char) (p s : str) :
  startswith s (a :: p) = true -> In a s.
Proof.
  destruct s as [|c s]; [discriminate|]. cbn [startswith]. intros H.
  apply andb_prop in H. destruct H as [H _]. apply N.eqb_eq in H. left. auto.
Qed.

Lemma contains_head (a : char) (p s : str) :
  contains (a :: p) s = true -> In a s.
Proof.
  induction s as [|c s IH]; cbn [contains]; intros H.
  - discriminate.
  - apply orb_prop in H. destruct H as [H|H].
    + apply (startswith_head H).
    + right. apply IH. assumption.
Qed.

Lemma single_spaced_no_newline (t : str) : single_spaced t -> ~ In LF t.
Proof.
  intros [ws [Hws ->]] Hin.
  assert (Forall (fun c => c <> LF) (join [SPACE] ws)) as F.
  { apply join_chars; [discriminate|].
    eapply Forall_impl; [|exact Hws]. intros w [_ Hw].
    eapply Forall_impl; [|exact Hw]. intros c Hc ->. discriminate Hc. }
  rewrite Forall_forall in F. exact (F _ Hin eq_refl).
Qed.

Lemma collapse_newlines_step (t : str) :
  collapse_newlines t =
  if contains NL3 t then collapse_newlines (replace NL3 NL2 t) else t.
Proof.
  rewrite collapse_newlines_equation_1. unfold collapse_newlines_unfold_clause_1.
  destruct (inspect (contains NL3 t)) as [[|] E]; cbn; rewrite E; reflexivity.
Qed.

Lemma collapse_single_spaced (t : str) :
  single_spaced t -> collapse_newlines t = t.
Proof.
  intros H. rewrite collapse_newlines_step.
  destruct (contains NL3 t) eqn:E; [|reflexivity].
  exfalso. apply (single_spaced_no_newline H). apply (contains_head E).
Qed.

Lemma split_single_spaced (s : str) : single_spaced (join [SPACE] (split s)).
Proof. exists (split s). split; [apply split_from_words; constructor|reflexivity]. Qed.

(** What [clean_ocr_text] computes on a non-empty string: the words of the
    filtered text joined by single spaces, when that is long enough. *)
Lemma clean_ocr_text_normal_form (raw : str) :
  raw <> [] ->
  clean_ocr_text (Some raw) =
  let text := join [SPACE] (split (filter keep_char raw)) in
  if (OCR_TEXT_MIN_LENGTH <=? len text)%Z then Some text else None.
Proof.
  intros Hne. destruct raw as [|c raw]; [contradiction|].
  unfold clean_ocr_text.
  pose proof (split_single_spaced (filter keep_char (c :: raw))) as S.
  rewrite (collapse_single_spaced S), (strip_single_spaced S). reflexivity.
Qed.

Lemma clean_ocr_text_single_spaced (x : option str) (t : str) :
  clean_ocr_text x = Some t ->
  single_spaced t /\ (OCR_TEXT_MIN_LENGTH <= len t)%Z /\
  Forall (fun c => keep_char c = true) t.
Proof.
  destruct x as [raw|]; [|discriminate].
  destruct raw as [|c raw]; [discriminate|].
  rewrite clean_ocr_text_normal_form by discriminate. cbv zeta.
  destruct (OCR_TEXT_MIN_LENGTH <=? _)%Z eqn:E; [|discriminate].
  intros [= <-]. split; [apply split_single_spaced|]. split.
  - apply Z.leb_le. exact E.
  - apply join_chars; [reflexivity|].
    unfold split. apply (@split_from_chars (fun c => keep_char c = true)).
    + apply Forall_nil.
    + exact (filter_keep_kept (c :: raw)).
Qed.

(** No newline survives normalization: [' '.join(text.split())] has already
    turned every run of whitespace, newlines included, into one space before
    the newline-collapsing loop runs. *)
Lemma clean_ocr_text_no_newline (x : option str) (t : str) :
  clean_ocr_text x = Some t -> ~ In LF t.
Proof.
  intros H. apply clean_ocr_text_single_spaced in H.
  apply single_spaced_no_newline. tauto.
Qed.

(** C9. The text normalizer is idempotent: normalizing twice gives the same
    result as normalizing once, for every string and for [None]; a [None]
    result of the first pass stays [None]. *)
Theorem clean_ocr_text_idempotent (x : option str) :
  clean_ocr_text (clean_ocr_text x) = clean_ocr_text x.
Proof.
  destruct (clean_ocr_text x) as [t|] eqn:E; [|reflexivity].
  destruct (clean_ocr_text_single_spaced E) as [[ws [Hws ->]] [Hlen Hkeep]].
  assert (join [SPACE] ws <> []) as Hne.
  { intros Z0. rewrite Z0 in Hlen. unfold OCR_TEXT_MIN_LENGTH, len in Hlen.
    simpl in Hlen. lia. }
  rewrite clean_ocr_text_normal_form by assumption. cbv zeta.
  rewrite (filter_keep_id Hkeep), (split_join Hws).
  apply Z.leb_le in Hlen. rewrite Hlen. reflexivity.
Qed.

(** C3. On a text with a paragraph break (two consecutive newlines) the
    normalizer returns the two paragraphs joined by one space: the paragraph
    break is not preserved. *)
Theorem clean_ocr_text_drops_paragraph_break :
  clean_ocr_text
    (Some (lit "First paragraph." ++ [LF; LF] ++ lit "Second paragraph."))
  = Some (lit "First paragraph. Second paragraph.").
Proof. reflexivity. Qed.

(* ===================================================================== *)
(** * The OCR service: responses of the Vision client *)
(* ===================================================================== *)

Module Vision.

(** The part of a [full_text_annotation] the scripts read. *)
Record symbol := { confidence : Q }.
Record word := { symbols : list symbol }.
Record paragraph := { words : list word }.
Record block := { paragraphs : list paragraph }.
Record page := { blocks : list block }.
Record text_annotation := { text : str; pages : list page }.

(** Answer of [document_text_detection]: [error.message] and the
    annotation, which is falsy when nothing was recognised. *)
Record image_response := {
  error_message : str;
  full_text_annotation : option text_annotation }.

(** Answer of [batch_annotate_files]: [responses[i].responses[j]] is the
    annotation of page [j] of file [i]. *)
Record page_response := { page_annotation : option text_annotation }.
Record file_response := { page_responses : list page_response }.
Record batch_response := { responses : list file_response }.

End Vision.
Import Vision.

(* ===================================================================== *)
(** * Confidence evaluator *)
(* ===================================================================== *)

Definition OCR_MIN_CONFIDENCE : Q := 3 # 10.

(** [a < b] on rationals, as a boolean. *)
Definition Qltb (a b : Q) : bool :=
  (Qnum a * QDen b <? Qnum b * QDen a)%Z.

(** [for x in l: body], on a state [S]. *)
Definition for_each {A S : Type} (l : list A) (body : A -> S -> S) (s : S) : S :=
  fold_left (fun s a => body a s) l s.

(** The five nested loops of [extract_text_from_image_bytes] that fill
    [confidence_scores]. *)
Definition collect_symbol (sy : symbol) (scores : list Q) : list Q :=
  if Qltb 0 (confidence sy) then scores ++ [confidence sy] else scores.

Definition confidence_scores (a : text_annotation) : list Q :=
  for_each (pages a) (fun page =>
    for_each (blocks page) (fun block =>
      for_each (paragraphs block) (fun paragraph =>
        for_each (words paragraph) (fun word =>
          for_each (symbols word) collect_symbol)))) [].

(** [sum(l)]: left to right, starting from [0]. *)
Definition py_sum (l : list Q) : Q := fold_left Qplus l 0.

(** [sum(confidence_scores) / len(confidence_scores) if confidence_scores
    else 0] *)
Definition average (scores : list Q) : Q :=
  match scores with
  | [] => 0
  | _ => py_sum scores / inject_Z (Z.of_nat (length scores))
  end.

Definition avg_confidence (a : text_annotation) : Q :=
  average (confidence_scores a).

(** The sequence of per-symbol scores of a document, in reading order. *)
Definition symbol_scores (a : text_annotation) : list Q :=
  flat_map (fun page =>
    flat_map (fun block =>
      flat_map (fun paragraph =>
        flat_map (fun word => map confidence (symbols word))
                 (words paragraph))
               (paragraphs block))
             (blocks page))
           (pages a).

(** The arithmetic mean of a non-empty sequence. *)
Definition mean (l : list Q) : Q :=
  fold_right Qplus 0 l / inject_Z (Z.of_nat (length l)).

Definition positive_scores (l : list Q) : list Q := filter (Qltb 0) l.

(** Specification of the evaluator: the mean of the positive scores, [0]
    when there is none. *)
Definition mean_of_positive (scores : list Q) : Q :=
  match positive_scores scores with
  | [] => 0
  | p => mean p
  end.

Lemma for_each_append {A B : Type} (f : A -> list B)
      (body : A -> list B -> list B) (l : list A) (acc : list B) :
  (forall x acc, body x acc = acc ++ f x) ->
  for_each l body acc = acc ++ flat_map f l.
Proof.
  intros Hbody. unfold for_each. revert acc.
  induction l as [|x l IH]; intros acc; cbn [fold_left flat_map].
  - rewrite app_nil_r. reflexivity.
  - rewrite IH, Hbody, app_assoc. reflexivity.
Qed.

Lemma filter_flat_map {A B : Type} (p : B -> bool) (f : A -> list B) (l : list A) :
  filter p (flat_map f l) = flat_map (fun x => filter p (f x)) l.
Proof.
  induction l as [|x l IH]; [reflexivity|].
  cbn [flat_map]. rewrite filter_app, IH. reflexivity.
Qed.

Lemma flat_map_singleton_filter {A B : Type} (p : B -> bool) (g : A -> B) (l : list A) :
  flat_map (fun x => if p (g x) then [g x] else []) l = filter p (map g l).
Proof.
  induction l as [|x l IH]; [reflexivity|].
  cbn [flat_map map filter]. rewrite IH. destruct (p (g x)); reflexivity.
Qed.

(** The loops collect exactly the positive scores, in reading order. *)
Lemma confidence_scores_positive (a : text_annotation) :
  confidence_scores a = positive_scores (symbol_scores a).
Proof.
  unfold confidence_scores, positive_scores, symbol_scores.
  rewrite !filter_flat_map.
  erewrite for_each_append; [reflexivity|]. intros pg acc; cbv beta.
  rewrite filter_flat_map.
  erewrite for_each_append; [reflexivity|]. intros bl acc1; cbv beta.
  rewrite filter_flat_map.
  erewrite for_each_append; [reflexivity|]. intros pa acc2; cbv beta.
  rewrite filter_flat_map.
  erewrite for_each_append; [reflexivity|]. intros wd acc3; cbv beta.
  rewrite <- flat_map_singleton_filter.
  erewrite for_each_append; [reflexivity|]. intros sy acc4; cbv beta.
  unfold collect_symbol. destruct (Qltb 0 (confidence sy)).
  - reflexivity.
  - rewrite app_nil_r. reflexivity.
Qed.

Lemma fold_left_Qplus (l : list Q) (a : Q) :
  fold_left Qplus l a == a + fold_right Qplus 0 l.
Proof.
  revert a. induction l as [|x l IH]; intros a; cbn [fold_left fold_right].
  - ring.
  - rewrite IH. ring.
Qed.

Lemma average_mean (l : list Q) : l <> [] -> average l == mean l.
Proof.
  intros Hne. destruct l as [|x l]; [contradiction|].
  unfold average, mean, py_sum. rewrite fold_left_Qplus.
  apply Qdiv_comp; [ring|reflexivity].
Qed.

(** C7. The document-level confidence is the arithmetic mean of the positive
    per-symbol scores of the document, and it is 0 when the document has no
    symbol score (and, more generally, no positive one). *)
Theorem avg_confidence_mean_of_positive (a : text_annotation) :
  avg_confidence a == mean_of_positive (symbol_scores a) /\
  (symbol_scores a = [] -> avg_confidence a = 0).
Proof.
  unfold avg_confidence, mean_of_positive.
  rewrite confidence_scores_positive. split.
  - destruct (positive_scores (symbol_scores a)) as [|x l] eqn:E.
    + reflexivity.
    + apply average_mean. discriminate.
  - intros ->. reflexivity.
Qed.

Definition two_symbol_page : text_annotation :=
  {| text := lit "ab";
     pages := [ {| blocks := [ {| paragraphs := [ {| words :=
       [ {| symbols := [ {| confidence := 1 # 2 |}; {| confidence := 0 |};
                         {| confidence := 1 # 4 |} ] |} ] |} ] |} ] |} ] |}.

Example avg_confidence_ex : avg_confidence two_symbol_page == 3 # 8.
Proof. reflexivity. Qed.

Definition blank_annotation : text_annotation := {| text := []; pages := [] |}.

Lemma avg_confidence_mean_of_positive_witness :
  symbol_scores blank_annotation = [] /\
  avg_confidence blank_annotation = 0.
Proof.
  split; [reflexivity|].
  apply (proj2 (avg_confidence_mean_of_positive blank_annotation)). reflexivity.
Defined.

(* ===================================================================== *)
(** * Effects: an event log threaded through a state-and-exception monad *)
(* ===================================================================== *)

(** A row of the [notes] or [books] table as [process_file] builds it. A key
    that is absent from the dict, or present with the value [None], is
    [None] here. *)
Record metadata := {
  md_id : str;
  md_subject_id : str;
  md_branch : str;
  md_semester : str;
  md_subject : str;
  md_file_name : str;
  md_s3_url : str;
  md_ocr_text : option str;
  md_is_ocr_done : option bool }.

(** What the scripts do to the outside world, in the order they do it. *)
Inductive event : Type :=
| EvSleep (delay : Q)                 (* time.sleep(delay) *)
| EvCall                              (* one call of a scripted operation *)
| EvGetSize                           (* os.path.getsize *)
| EvSelectNote (url : str)            (* notes: select id where s3_url = url *)
| EvSelectBook (url : str)            (* books: select id where s3_url = url *)
| EvUpload (key : str)                (* s3_client.upload_file, one attempt *)
| EvSelectSubject (id : str)
| EvInsertSubject (id : str)
| EvReadFile
| EvInsertNote (row : metadata)
| EvInsertBook (row : metadata).

Definition log := list event.

Definition M (A : Type) : Type := log -> res A * log.

Definition ret {A : Type} (a : A) : M A := fun l => (Ok a, l).

Definition raise {A : Type} (e : exn) : M A := fun l => (Raise e, l).

Definition bind {A B : Type} (m : M A) (k : A -> M B) : M B :=
  fun l => match m l with
           | (Ok a, l') => k a l'
           | (Raise e, l') => (Raise e, l')
           end.

(** [try: m  except Exception as e: h e] *)
Definition try_except {A : Type} (m : M A) (h : exn -> M A) : M A :=
  fun l => match m l with
           | (Ok a, l') => (Ok a, l')
           | (Raise e, l') => h e l'
           end.

(** Record an effect. *)
Definition emit (ev : event) : M unit := fun l => (Ok tt, l ++ [ev]).

(** The answer of an external call, an effect followed by its outcome. *)
Definition external {A : Type} (ev : event) (answer : res A) : M A :=
  fun l => (answer, l ++ [ev]).

(** A pure call that may raise. *)
Definition lift {A : Type} (r : res A) : M A := fun l => (r, l).

Declare Scope monad_scope.
Delimit Scope monad_scope with monad.
Notation "x <- m ;; k" := (bind m (fun x => k))
  (at level 61, m at next level, right associativity) : monad_scope.
Notation "m ;;; k" := (bind m (fun _ => k))
  (at level 61, right associativity) : monad_scope.
Open Scope monad_scope.

Definition is_call (ev : event) : bool :=
  match ev with EvCall => true | _ => false end.

Definition count_calls (l : log) : nat := length (filter is_call l).

(** The delays slept in a run, in order. *)
Fixpoint sleeps (l : log) : list Q :=
  match l with
  | [] => []
  | EvSleep d :: l' => d :: sleeps l'
  | _ :: l' => sleeps l'
  end.

(* ===================================================================== *)
(** * Retry executor: [retry_loop] *)
(* ===================================================================== *)

Definition MAX_RETRIES : Z := 3.
Definition RETRY_BACKOFF_BASE : Q := 3 # 2.

Section RetryLoop.

Variable A : Type.
Variable func : M A.
Variable max_retries : Z.
Variable backoff : Q.
Variable allowed_exceptions : exn -> bool.
Variable swallow : bool.

(** The [while True] loop, entered with the current [attempt] and [delay].
    The result is [Some] of what [func] returned, or [None] for the value
    returned when the retries are used up and [swallow] is set. *)
Equations retry_from (attempt : Z) (delay : Q) (l : log) : res (option A) * log
  by wf (Z.to_nat (max_retries - attempt)) lt :=
  retry_from attempt delay l with func l := {
    | (Ok a, l1) => (Ok (Some a), l1)
    | (Raise e, l1) with allowed_exceptions e := {
        | false => (Raise e, l1)
        | true with inspect (attempt + 1 >? max_retries)%Z := {
            | exist _ true _ =>
                ((if swallow then Ok None else Raise e), l1)
            | exist _ false _ =>
                retry_from (attempt + 1)%Z (delay * backoff)
                           (l1 ++ [EvSleep delay]) } } }.
Next Obligation. lia. Qed.

Definition retry_loop (initial_delay : Q) : M (option A) :=
  retry_from 0 initial_delay.

End RetryLoop.

(** An operation whose [k]-th call (counting from 0) is answered by
    [answers k]. *)
Definition scripted {A : Type} (answers : nat -> res A) : M A :=
  fun l => (answers (count_calls l), l ++ [EvCall]).

Definition always_fails : nat -> res unit :=
  fun k => Raise (OtherError (lit "timeout")).

Example retry_loop_ex :
  retry_loop (scripted always_fails) 2 (3 # 2) (fun _ => true) false 1 [] =
  (Raise (OtherError (lit "timeout")),
   [EvCall; EvSleep 1; EvCall; EvSleep (1 * (3 # 2)); EvCall]).
Proof. reflexivity. Qed.

Lemma retry_from_step {A : Type} (func : M A) (max_retries : Z) (backoff : Q)
      (allowed : exn -> bool) (swallow : bool) (attempt : Z) (delay : Q) (l : log) :
  retry_from func max_retries backoff allowed swallow attempt delay l =
  match func l with
  | (Ok a, l1) => (Ok (Some a), l1)
  | (Raise e, l1) =>
      if allowed e
      then if (attempt + 1 >? max_retries)%Z
           then ((if swallow then Ok None else Raise e), l1)
           else retry_from func max_retries backoff allowed swallow
                           (attempt + 1)%Z (delay * backoff)
                           (l1 ++ [EvSleep delay])
      else (Raise e, l1)
  end.
Proof.
  rewrite retry_from_equation_1.
  destruct (func l) as [[a|e] l1]; cbn; [reflexivity|].
  destruct (allowed e); cbn; [|reflexivity].
  destruct (inspect (attempt + 1 >? max_retries)%Z) as [[|] E]; cbn;
    rewrite E; reflexivity.
Qed.

(** The log of a run in which all [n + 1] calls fail: a call, then [n] times
    a sleep followed by a call, the delay being multiplied by [backoff] after
    each sleep. *)
Fixpoint exhausted_trace (delay backoff : Q) (n : nat) : log :=
  match n with
  | O => [EvCall]
  | S n' => EvCall :: EvSleep delay :: exhausted_trace (delay * backoff) backoff n'
  end.

Fixpoint backoff_delays (delay backoff : Q) (n : nat) : list Q :=
  match n with
  | O => []
  | S n' => delay :: backoff_delays (delay * backoff) backoff n'
  end.

Lemma count_calls_app (l1 l2 : log) :
  count_calls (l1 ++ l2) = (count_calls l1 + count_calls l2)%nat.
Proof. unfold count_calls. rewrite filter_app, length_app. reflexivity. Qed.

Lemma count_calls_exhausted (delay backoff : Q) (n : nat) :
  count_calls (exhausted_trace delay backoff n) = S n.
Proof.
  revert delay. induction n as [|n IH]; intros delay; [reflexivity|].
  cbn [exhausted_trace]. change (count_calls (EvCall :: EvSleep delay :: ?l))
    with (S (count_calls l)). unfold count_calls in *. cbn [filter is_call length].
  rewrite IH. reflexivity.
Qed.

Lemma sleeps_exhausted (delay backoff : Q) (n : nat) :
  sleeps (exhausted_trace delay backoff n) = backoff_delays delay backoff n.
Proof.
  revert delay. induction n as [|n IH]; intros delay; [reflexivity|].
  cbn [exhausted_trace sleeps backoff_delays]. rewrite IH. reflexivity.
Qed.

Section RetryExhaustion.

Variable A : Type.
Variable answers : nat -> res A.
Variable max_retries : Z.
Variable backoff : Q.
Variable allowed : exn -> bool.
Variable swallow : bool.

Hypothesis always_retryable :
  forall k, exists e, answers k = Raise e /\ allowed e = true.

Lemma retry_from_exhausts (n : nat) :
  forall (attempt : Z) (delay : Q) (l : log),
    (0 <= attempt <= max_retries)%Z ->
    Z.to_nat (max_retries - attempt) = n ->
    count_calls l = Z.to_nat attempt ->
    exists e_last,
      answers (Z.to_nat max_retries) = Raise e_last /\
      retry_from (scripted answers) max_retries backoff allowed swallow
                 attempt delay l =
      ((if swallow then Ok None else Raise e_last),
       l ++ exhausted_trace delay backoff n).
Proof.
  induction n as [|n IH]; intros attempt delay l Hrange Hn Hcount.
  - assert (attempt = max_retries) as -> by lia.
    destruct (always_retryable (Z.to_nat max_retries)) as [e [He Hal]].
    exists e. split; [assumption|].
    rewrite retry_from_step. unfold scripted at 1. rewrite Hcount, He, Hal.
    replace (max_retries + 1 >? max_retries)%Z with true by lia.
    reflexivity.
  - destruct (always_retryable (Z.to_nat attempt)) as [e [He Hal]].
    assert (count_calls ((l ++ [EvCall]) ++ [EvSleep delay])
            = Z.to_nat (attempt + 1)) as Hcount'.
    { rewrite !count_calls_app, Hcount. cbn. lia. }
    destruct (IH (attempt + 1)%Z (delay * backoff)
                 ((l ++ [EvCall]) ++ [EvSleep delay])
                 ltac:(lia) ltac:(lia) Hcount')
      as [e_last [Hlast Hrun]].
    exists e_last. split; [assumption|].
    rewrite retry_from_step. unfold scripted at 1. rewrite Hcount, He, Hal.
    replace (attempt + 1 >? max_retries)%Z with false by lia.
    rewrite Hrun. rewrite <- !app_assoc. reflexivity.
Qed.

End RetryExhaustion.

(** A run in which the first [k] calls fail with retryable errors and the
    next call fails with an error that is not retryable: that error leaves
    the loop at once, whatever [swallow] says. *)
Lemma retry_from_rejects (A : Type) (answers : nat -> res A) (max_retries : Z)
      (backoff : Q) (allowed : exn -> bool) (swallow : bool) (k : nat) :
  forall (attempt : Z) (delay : Q) (l : log) (e : exn),
    (0 <= attempt)%Z ->
    (attempt + Z.of_nat k <= max_retries)%Z ->
    count_calls l = Z.to_nat attempt ->
    (forall i, (i < k)%nat ->
       exists e', answers (Z.to_nat attempt + i)%nat = Raise e' /\
                  allowed e' = true) ->
    answers (Z.to_nat attempt + k)%nat = Raise e ->
    allowed e = false ->
    retry_from (scripted answers) max_retries backoff allowed swallow
               attempt delay l =
    (Raise e, l ++ exhausted_trace delay backoff k).
Proof.
  induction k as [|k IH]; intros attempt delay l e Hpos Hmax Hcount Hpre He Hal.
  - rewrite retry_from_step. unfold scripted at 1.
    rewrite Hcount. rewrite Nat.add_0_r in He. rewrite He, Hal. reflexivity.
  - destruct (Hpre O ltac:(lia)) as [e' [He' Hal']].
    rewrite Nat.add_0_r in He'.
    rewrite retry_from_step. unfold scripted at 1. rewrite Hcount, He', Hal'.
    replace (attempt + 1 >? max_retries)%Z with false by lia.
    assert (Z.to_nat (attempt + 1) = S (Z.to_nat attempt)) as Hnext by lia.
    rewrite (IH (attempt + 1)%Z (delay * backoff)
                ((l ++ [EvCall]) ++ [EvSleep delay]) e).
    + rewrite <- !app_assoc. reflexivity.
    + lia.
    + lia.
    + rewrite !count_calls_app, Hcount, Hnext. cbn. lia.
    + intros i Hi. rewrite Hnext.
      replace (S (Z.to_nat attempt) + i)%nat with (Z.to_nat attempt + S i)%nat
        by lia.
      apply Hpre. lia.
    + rewrite Hnext.
      replace (S (Z.to_nat attempt) + k)%nat with (Z.to_nat attempt + S k)%nat
        by lia.
      exact He.
    + exact Hal.
Qed.


Definition rejects_request : nat -> res unit :=
  fun k => Raise (ValueError (lit "bad request")).

(** A timeout on the first call, a rejected request on the second. *)
Definition rejects_second_request : nat -> res unit :=
  fun k =>
    match k with
    | O => Raise (OtherError (lit "timeout"))
    | S _ => Raise (ValueError (lit "bad request"))
    end.

Definition not_value_error (e : exn) : bool :=
  match e with ValueError _ => false | _ => true end.


(* ===================================================================== *)
(** * OCR dispatcher *)
(* ===================================================================== *)

(** [try: r  except Exception as e: h e], for a pure computation. *)
Definition rcatch {A : Type} (r : res A) (h : exn -> res A) : res A :=
  match r with
  | Ok a => Ok a
  | Raise e => h e
  end.

Definition rbind {A B : Type} (r : res A) (k : A -> res B) : res B :=
  match r with
  | Ok a => k a
  | Raise e => Raise e
  end.

(** Truth value of an optional string: [None] and [''] are falsy. *)
Definition truthy (t : option str) : bool :=
  match t with
  | Some (_ :: _) => true
  | _ => false
  end.

(** [cleaned if cleaned else None] is [cleaned]: the normalizer returns no
    empty text. *)
Lemma truthy_clean (x : option str) :
  (if truthy (clean_ocr_text x) then clean_ocr_text x else None) = clean_ocr_text x.
Proof.
  destruct (clean_ocr_text x) as [[|c t]|] eqn:E; try reflexivity.
  apply clean_ocr_text_single_spaced in E. destruct E as [_ [Hlen _]].
  unfold OCR_TEXT_MIN_LENGTH, len in Hlen. cbn in Hlen. lia.
Qed.

Section OCR.

(** Python [bytes]; the scripts only pass them on and take their length. *)
Variable bytes : Type.

(** The Vision client: how the service answers a call on a payload. *)
Record vision_client := {
  document_text_detection : bytes -> res image_response;
  batch_annotate_files : bytes -> res batch_response }.

(** The module-level [vision_client], [None] when its creation failed. *)
Variable the_client : option vision_client.

Definition extract_text_from_image_bytes (content_bytes : bytes) (filename : str)
  : res (option str) :=
  match the_client with
  | None => Raise (RuntimeError (lit "Vision client not initialized"))
  | Some client =>
      rcatch
        (rbind (document_text_detection client content_bytes) (fun response =>
           match error_message response with
           | _ :: _ =>
               Raise (OtherError (lit "Vision API error: " ++ error_message response))
           | [] =>
               match full_text_annotation response with
               | Some annotation =>
                   let cleaned := clean_ocr_text (Some (text annotation)) in
                   Ok cleaned
               | None => Ok None
               end
           end))
        (fun e => Raise e)
  end.

(** [full_text += text + "\n\n"] for every page that has an annotation. *)
Definition pdf_full_text (pages : list page_response) : str :=
  for_each pages (fun page full_text =>
    match page_annotation page with
    | Some annotation => full_text ++ text annotation ++ [LF; LF]
    | None => full_text
    end) [].

Definition extract_text_from_pdf_bytes (content_bytes : bytes) (filename : str)
  : res (option str) :=
  match the_client with
  | None => Raise (RuntimeError (lit "Vision client not initialized"))
  | Some client =>
      rcatch
        (rbind (batch_annotate_files client content_bytes) (fun response =>
           let pages :=
             match responses response with
             | first :: _ => page_responses first
             | [] => []
             end in
           let cleaned := clean_ocr_text (Some (pdf_full_text pages)) in
           Ok (if truthy cleaned then cleaned else None)))
        (fun e => Raise e)
  end.

Definition APPLICATION_PDF : str := lit "application/pdf".

Definition extract_text_sync (content_bytes : bytes) (mime_type : str)
           (filename : str) : res (option str) :=
  rcatch
    (if startswith mime_type (lit "image/")
     then extract_text_from_image_bytes content_bytes filename
     else if str_eqb mime_type APPLICATION_PDF
          then extract_text_from_pdf_bytes content_bytes filename
          else Ok None)
    (fun e => Ok None).

(** The error, if any, with which the OCR service answers the call that
    [extract_text_sync] makes for this payload and MIME type. *)
Definition upstream_error (content_bytes : bytes) (mime_type : str) : option exn :=
  match the_client with
  | None => None
  | Some client =>
      if startswith mime_type (lit "image/")
      then match document_text_detection client content_bytes with
           | Raise e => Some e
           | Ok _ => None
           end
      else if str_eqb mime_type APPLICATION_PDF
           then match batch_annotate_files client content_bytes with
                | Raise e => Some e
                | Ok _ => None
                end
           else None
  end.

Definition supported_mime (mime_type : str) : bool :=
  startswith mime_type (lit "image/") || str_eqb mime_type APPLICATION_PDF.

(** What the OCR step comes to for a payload and a MIME type, read off the
    module-level client and the answer of the service. *)
Inductive ocr_outcome : Type :=
| Unsupported                     (* neither [image/...] nor [application/pdf] *)
| Failed (e : exn)                (* the extractor raises [e] *)
| Extracted (raw : option str).   (* the text the response holds, if any *)

Definition ocr_outcome_of (content_bytes : bytes) (mime_type : str)
  : ocr_outcome :=
  if startswith mime_type (lit "image/")
  then
    match the_client with
    | None => Failed (RuntimeError (lit "Vision client not initialized"))
    | Some client =>
        match document_text_detection client content_bytes with
        | Raise e => Failed e
        | Ok response =>
            match error_message response with
            | _ :: _ =>
                Failed (OtherError (lit "Vision API error: "
                                      ++ error_message response))
            | [] => Extracted (option_map text (full_text_annotation response))
            end
        end
    end
  else if str_eqb mime_type APPLICATION_PDF
  then
    match the_client with
    | None => Failed (RuntimeError (lit "Vision client not initialized"))
    | Some client =>
        match batch_annotate_files client content_bytes with
        | Raise e => Failed e
        | Ok response =>
            Extracted (Some (pdf_full_text
                               match responses response with
                               | first :: _ => page_responses first
                               | [] => []
                               end))
        end
    end
  else Unsupported.

End OCR.

Arguments extract_text_sync {bytes} the_client content_bytes mime_type filename.
Arguments upstream_error {bytes} the_client content_bytes mime_type.
Arguments ocr_outcome_of {bytes} the_client content_bytes mime_type.

(** The dispatcher returns the normalized text of an answer that holds one,
    and [None] for everything else. *)
Lemma extract_text_sync_outcome (bytes : Type)
      (the_client : option (vision_client bytes)) (content_bytes : bytes)
      (mime_type filename : str) :
  extract_text_sync the_client content_bytes mime_type filename =
  Ok match ocr_outcome_of the_client content_bytes mime_type with
     | Extracted raw => clean_ocr_text raw
     | _ => None
     end.
Proof.
  unfold extract_text_sync, ocr_outcome_of, extract_text_from_image_bytes,
    extract_text_from_pdf_bytes.
  destruct (startswith mime_type (lit "image/"));
    [|destruct (str_eqb mime_type APPLICATION_PDF)].
  - destruct the_client as [client|]; [|reflexivity].
    destruct (document_text_detection client content_bytes) as [response|e];
      [|reflexivity].
    cbn [rbind rcatch].
    destruct (error_message response); [|reflexivity].
    destruct (full_text_annotation response); reflexivity.
  - destruct the_client as [client|]; [|reflexivity].
    destruct (batch_annotate_files client content_bytes) as [response|e];
      [|reflexivity].
    cbn [rbind rcatch]. rewrite truthy_clean. reflexivity.
  - reflexivity.
Qed.


(** A client whose service is down: every call raises. *)
Definition service_down : vision_client Z :=
  {| document_text_detection := fun _ =>
       Raise (GoogleAPICallError (lit "503 Service Unavailable"));
     batch_annotate_files := fun _ =>
       Raise (GoogleAPICallError (lit "503 Service Unavailable")) |}.

(** A client that recognises one line of text on every image and page. *)
Definition reads_one_line : vision_client Z :=
  {| document_text_detection := fun _ =>
       Ok {| error_message := [];
             full_text_annotation :=
               Some {| text := lit "  Lecture 3:   eigenvalues ";
                       pages := [] |} |};
     batch_annotate_files := fun _ =>
       Ok {| responses :=
               [ {| page_responses :=
                      [ {| page_annotation :=
                             Some {| text := lit "  Lecture 3:   eigenvalues ";
                                     pages := [] |} |} ] |} ] |} |}.



(* ===================================================================== *)
(** * Adaptive chunker: [dynamic_chunk_and_ocr_pdf] *)
(* ===================================================================== *)

Definition SYNC_LIMIT : Z := 40 * 1024 * 1024.
Definition DEFAULT_CHUNK_PAGES : Z := 5.
Definition CHUNK_MIN_PAGES : Z := 1.

(** What the loop does with a page range once it leaves it behind. *)
Inductive disposition : Type :=
| Processed          (* sent to [extract_text_sync] *)
| SkippedOverLimit   (* a single page above [SYNC_LIMIT] *)
| Dropped.           (* the [except] branch of the loop body *)

(** Pages [first_page .. end_page - 1], counted from 0. *)
Record page_range := {
  how : disposition;
  first_page : Z;
  end_page : Z }.

(** The variables of the [while] loop, and the ranges left behind so far. *)
Record loop_state := {
  page_idx : Z;
  chunk_pages : Z;
  gathered_text : str;
  emitted : list page_range }.

(** What decreases at every run of the loop body: two units for every page
    still ahead, one for every halving the window can still undergo. *)
Definition measure_of (total_pages : Z) (st : loop_state) : nat :=
  Z.to_nat (2 * (total_pages - page_idx st) + Z.log2 (chunk_pages st)).

(** The two ways one run of the loop body may change the state: shrink the
    window and stay on the same page, or leave a non-empty range behind and
    move to its end. *)
Definition shrinks (st st' : loop_state) : Prop :=
  page_idx st' = page_idx st /\ emitted st' = emitted st /\
  (CHUNK_MIN_PAGES <= chunk_pages st')%Z /\
  (2 * chunk_pages st' <= chunk_pages st)%Z.

Definition advances (total_pages : Z) (st st' : loop_state) : Prop :=
  (page_idx st < page_idx st' <= total_pages)%Z /\
  (CHUNK_MIN_PAGES <= chunk_pages st' <= 2 * chunk_pages st)%Z /\
  exists d, emitted st' = emitted st ++
    [{| how := d; first_page := page_idx st; end_page := page_idx st' |}].

(** Consecutive non-empty ranges from page [a] to page [b]. *)
Fixpoint chained (a : Z) (rs : list page_range) (b : Z) : Prop :=
  match rs with
  | [] => a = b
  | r :: rs' =>
      first_page r = a /\ (a < end_page r)%Z /\ chained (end_page r) rs' b
  end.

Definition covers (p : Z) (r : page_range) : bool :=
  (first_page r <=? p)%Z && (p <? end_page r)%Z.

(** In how many of the ranges page [p] lies. *)
Definition count_covering (p : Z) (rs : list page_range) : nat :=
  length (filter (covers p) rs).

Lemma chained_le (rs : list page_range) (a b : Z) :
  chained a rs b -> (a <= b)%Z.
Proof.
  revert a. induction rs as [|r rs IH]; intros a; cbn [chained].
  - lia.
  - intros [_ [Hlt H]]. apply IH in H. lia.
Qed.

Lemma chained_snoc (rs : list page_range) (a b e : Z) (d : disposition) :
  chained a rs b -> (b < e)%Z ->
  chained a (rs ++ [{| how := d; first_page := b; end_page := e |}]) e.
Proof.
  revert a. induction rs as [|r rs IH]; intros a; cbn [chained app].
  - intros -> Hlt. cbn. auto.
  - intros [H1 [H2 H3]] Hlt. auto.
Qed.

Lemma chained_count (rs : list page_range) (a b p : Z) :
  chained a rs b ->
  count_covering p rs = if ((a <=? p) && (p <? b))%Z then 1%nat else 0%nat.
Proof.
  unfold count_covering. revert a.
  induction rs as [|r rs IH]; intros a; cbn [chained filter].
  - intros ->. destruct (b <=? p)%Z eqn:E1, (p <? b)%Z eqn:E2; try reflexivity; lia.
  - intros [H1 [H2 H3]]. pose proof (chained_le H3) as Hle.
    rewrite <- H1 in *. unfold covers at 1.
    specialize (IH _ H3).
    destruct (first_page r <=? p)%Z eqn:E1, (p <? end_page r)%Z eqn:E2;
      cbn [andb length]; rewrite IH;
      destruct (end_page r <=? p)%Z eqn:E3, (p <? b)%Z eqn:E4;
      cbn [andb]; try reflexivity; lia.
Qed.

Section PageLoop.

Variable total_pages : Z.

(** One run of the loop body; [Raise] when an exception leaves the body. *)
Variable body : loop_state -> res loop_state.

Hypothesis body_step :
  forall st st', (page_idx st < total_pages)%Z ->
    (CHUNK_MIN_PAGES <= chunk_pages st)%Z -> body st = Ok st' ->
    shrinks st st' \/ advances total_pages st st'.

Lemma body_min (st st' : loop_state) :
  (page_idx st < total_pages)%Z ->
  (CHUNK_MIN_PAGES <= chunk_pages st)%Z -> body st = Ok st' ->
  (CHUNK_MIN_PAGES <= chunk_pages st')%Z.
Proof.
  intros H1 H2 H3. destruct (body_step H1 H2 H3) as [[_ [_ H]]|[_ [H _]]]; lia.
Qed.

Lemma body_decreases (st st' : loop_state) :
  (page_idx st < total_pages)%Z ->
  (CHUNK_MIN_PAGES <= chunk_pages st)%Z -> body st = Ok st' ->
  (measure_of total_pages st' < measure_of total_pages st)%nat.
Proof.
  intros H1 H2 H3. unfold measure_of.
  pose proof (Z.log2_nonneg (chunk_pages st)) as L0.
  pose proof (Z.log2_nonneg (chunk_pages st')) as L0'.
  destruct (body_step H1 H2 H3) as [[Hp [_ Hc]]|[Hp [Hc _]]];
    unfold CHUNK_MIN_PAGES in *.
  - rewrite Hp.
    assert (Z.log2 (2 * chunk_pages st') <= Z.log2 (chunk_pages st))%Z as L
      by (apply Z.log2_le_mono; lia).
    rewrite Z.log2_double in L by lia. lia.
  - assert (Z.log2 (chunk_pages st') <= Z.log2 (2 * chunk_pages st))%Z as L
      by (apply Z.log2_le_mono; lia).
    rewrite Z.log2_double in L by lia. lia.
Qed.

(** [while page_idx < total_pages: body] *)
#[local] Unset Implicit Arguments.
Equations while_pages (st : loop_state)
          (Hmin : (CHUNK_MIN_PAGES <= chunk_pages st)%Z) : res loop_state
  by wf (measure_of total_pages st) lt :=
  while_pages st Hmin with inspect (page_idx st <? total_pages)%Z := {
    | exist _ false _ => Ok st
    | exist _ true Hlt with inspect (body st) := {
        | exist _ (Raise e) _ => Raise e
        | exist _ (Ok st') Hbody =>
            while_pages st' (@body_min st st' (proj1 (Z.ltb_lt _ _) Hlt) Hmin Hbody) } }.
Next Obligation.
  apply body_decreases; [apply Z.ltb_lt|..]; assumption.
Qed.
#[local] Set Implicit Arguments.

(** When the loop ends normally, the ranges left behind run from page 0 to
    the last page without gap or overlap. *)
Lemma while_pages_chained (st : loop_state)
      (Hmin : (CHUNK_MIN_PAGES <= chunk_pages st)%Z) :
  chained 0 (emitted st) (page_idx st) ->
  (page_idx st <= total_pages)%Z ->
  forall st', while_pages st Hmin = Ok st' ->
    chained 0 (emitted st') total_pages.
Proof.
  funelim (while_pages st Hmin); intros Hch Hle st1 Hrun.
  - injection Hrun as <-.
    match goal with E : (_ <? _)%Z = false |- _ =>
      pose proof (proj1 (Z.ltb_ge _ _) E) end.
    replace total_pages with (page_idx st) by lia.
    assumption.
  - pose proof (body_step (proj1 (Z.ltb_lt _ _) Hlt) Hmin Hbody) as Hstep.
    match goal with IH : chained _ _ _ -> _ |- _ =>
      apply (fun a b => IH a b st1 Hrun) end.
    + destruct Hstep as [[Hp [He _]]|[Hp [_ [d He]]]].
      * rewrite Hp, He. assumption.
      * rewrite He. apply chained_snoc; [assumption|lia].
    + destruct Hstep as [[Hp _]|[Hp _]]; lia.
  - discriminate.
Qed.

(** A body that never raises makes a loop that never raises. *)
Lemma while_pages_returns (st : loop_state)
      (Hmin : (CHUNK_MIN_PAGES <= chunk_pages st)%Z) :
  (forall st0, (page_idx st0 < total_pages)%Z ->
     exists st1, body st0 = Ok st1) ->
  exists st', while_pages st Hmin = Ok st'.
Proof.
  intros Hok. funelim (while_pages st Hmin).
  - eexists. reflexivity.
  - auto.
  - destruct (Hok st (proj1 (Z.ltb_lt _ _) Hlt)) as [st1 H1]. congruence.
Qed.

End PageLoop.

Section Chunker.

Variable bytes : Type.

(** [len(buf.getbuffer())] *)
Variable bytes_len : bytes -> Z.

(** A PDF opened by [PdfReader]: [len(pdf_reader.pages)], and what a
    [PdfWriter] produces for pages [a .. b - 1] (building or writing the
    chunk may raise). *)
Record pdf_reader := {
  page_count : Z;
  write_pages : Z -> Z -> res bytes }.

(** The script's [extract_text_sync], applied to the payload, the MIME type
    and the label of the chunk. *)
Variable extract_text : bytes -> str -> str -> res (option str).

Variable pdf : pdf_reader.
Variable filename : str.
Variable start_chunk_pages : Z.

Definition moved_on (st : loop_state) (d : disposition) (end_page : Z)
           (chunk_pages : Z) (gathered_text : str) : loop_state :=
  {| page_idx := end_page;
     chunk_pages := chunk_pages;
     gathered_text := gathered_text;
     emitted := emitted st ++
       [{| how := d; first_page := page_idx st; end_page := end_page |}] |}.

(** The [try] block of the loop body. *)
Definition try_chunk (st : loop_state) (end_page : Z) : res loop_state :=
  rbind (write_pages pdf (page_idx st) end_page) (fun buf =>
    let chunk_size := bytes_len buf in
    if (chunk_size >? SYNC_LIMIT)%Z && (chunk_pages st >? CHUNK_MIN_PAGES)%Z
    then Ok {| page_idx := page_idx st;
               chunk_pages := Z.max CHUNK_MIN_PAGES (chunk_pages st / 2);
               gathered_text := gathered_text st;
               emitted := emitted st |}
    else if (chunk_size >? SYNC_LIMIT)%Z && (chunk_pages st =? CHUNK_MIN_PAGES)%Z
    then Ok (moved_on st SkippedOverLimit end_page (chunk_pages st)
                      (gathered_text st))
    else
      rbind (extract_text buf APPLICATION_PDF filename)
        (fun text =>
           let gathered :=
             match text with
             | Some (c :: t) => gathered_text st ++ (c :: t) ++ [LF; LF]
             | _ => gathered_text st
             end in
           let chunk_pages' :=
             if (chunk_pages st <? start_chunk_pages)%Z
             then Z.min start_chunk_pages (chunk_pages st * 2)
             else chunk_pages st in
           Ok (moved_on st Processed end_page chunk_pages' gathered))).

(** The loop body of the migration script: an exception raised in the [try]
    block drops the current range and moves on. *)
Definition loop_body (st : loop_state) : res loop_state :=
  let end_page := Z.min (page_idx st + chunk_pages st) (page_count pdf) in
  rcatch (try_chunk st end_page)
         (fun e => Ok (moved_on st Dropped end_page (chunk_pages st)
                                (gathered_text st))).

Lemma moved_on_advances (st : loop_state) (d : disposition)
      (e cp : Z) (g : str) :
  (page_idx st < e <= page_count pdf)%Z ->
  (CHUNK_MIN_PAGES <= cp <= 2 * chunk_pages st)%Z ->
  advances (page_count pdf) st (moved_on st d e cp g).
Proof.
  intros He Hcp. unfold advances, moved_on. cbn.
  split; [assumption|]. split; [assumption|]. exists d. reflexivity.
Qed.

Lemma try_chunk_step (st st' : loop_state) :
  (page_idx st < page_count pdf)%Z ->
  (CHUNK_MIN_PAGES <= chunk_pages st)%Z ->
  try_chunk st (Z.min (page_idx st + chunk_pages st) (page_count pdf)) = Ok st' ->
  shrinks st st' \/ advances (page_count pdf) st st'.
Proof.
  intros Hlt Hmin. unfold try_chunk, CHUNK_MIN_PAGES in *.
  set (e := Z.min _ _).
  assert (page_idx st < e <= page_count pdf)%Z as He by (subst e; lia).
  destruct (write_pages pdf (page_idx st) e) as [buf|err]; cbn [rbind];
    [|discriminate].
  destruct ((bytes_len buf >? SYNC_LIMIT)%Z && (chunk_pages st >? 1)%Z) eqn:E1.
  - intros [= <-]. left. unfold shrinks, CHUNK_MIN_PAGES.
    cbn [page_idx chunk_pages emitted].
    apply andb_prop in E1. destruct E1 as [_ E1].
    apply Z.gtb_lt in E1.
    pose proof (Z.mul_div_le (chunk_pages st) 2 ltac:(lia)).
    pose proof (Z.div_str_pos (chunk_pages st) 2 ltac:(lia)).
    repeat split; try reflexivity; lia.
  - destruct ((bytes_len buf >? SYNC_LIMIT)%Z && (chunk_pages st =? 1)%Z).
    + intros [= <-]. right.
      apply moved_on_advances; [assumption|unfold CHUNK_MIN_PAGES; lia].
    + destruct (extract_text buf APPLICATION_PDF filename)
        as [text|err]; cbn [rbind]; [|discriminate].
      intros [= <-]. right. apply moved_on_advances; [assumption|].
      unfold CHUNK_MIN_PAGES.
      destruct (chunk_pages st <? start_chunk_pages)%Z eqn:E3; lia.
Qed.

Lemma loop_body_step (st st' : loop_state) :
  (page_idx st < page_count pdf)%Z ->
  (CHUNK_MIN_PAGES <= chunk_pages st)%Z ->
  loop_body st = Ok st' ->
  shrinks st st' \/ advances (page_count pdf) st st'.
Proof.
  intros Hlt Hmin. unfold loop_body.
  destruct (try_chunk st _) as [st1|err] eqn:E; cbn [rcatch].
  - intros [= <-]. apply try_chunk_step; assumption.
  - intros [= <-]. right. unfold CHUNK_MIN_PAGES in *.
    apply moved_on_advances; unfold CHUNK_MIN_PAGES; lia.
Qed.

Lemma loop_body_returns (st : loop_state) : exists st', loop_body st = Ok st'.
Proof.
  unfold loop_body. destruct (try_chunk st _); cbn [rcatch]; eexists; reflexivity.
Qed.

(** The state in which the loop is entered. *)
Definition initial_state : loop_state :=
  {| page_idx := 0;
     chunk_pages := Z.max start_chunk_pages CHUNK_MIN_PAGES;
     gathered_text := [];
     emitted := [] |}.

Lemma initial_min : (CHUNK_MIN_PAGES <= chunk_pages initial_state)%Z.
Proof. apply Z.le_max_r. Qed.

(** The whole [while] loop of the migration script. *)
Definition chunk_loop : res loop_state :=
  while_pages (page_count pdf) loop_body loop_body_step initial_state initial_min.

(** The loop body of the older script has no [try]: an exception leaves the
    loop. *)
Definition old_loop_body (st : loop_state) : res loop_state :=
  let end_page := Z.min (page_idx st + chunk_pages st) (page_count pdf) in
  try_chunk st end_page.

Definition old_chunk_loop : res loop_state :=
  while_pages (page_count pdf) old_loop_body try_chunk_step
              initial_state initial_min.

End Chunker.

Arguments page_count {bytes} p.
Arguments write_pages {bytes} p a b.

(** What [PdfReader(io.BytesIO(pdf_bytes))] returns. PyPDF2 reads the page
    tree when [pdf_reader.pages] is first used, which the scripts do with
    [len(pdf_reader.pages)], after the [try] around the constructor:
    [read_pages] is that first use, an error for a page tree that cannot be
    read, else the reader with its pages. *)
Record pdf_document (bytes : Type) := {
  read_pages : res (pdf_reader bytes) }.

(** [dynamic_chunk_and_ocr_pdf] of the migration script; [read_pdf] is
    [PdfReader(io.BytesIO(pdf_bytes))]. *)
Definition dynamic_chunk_and_ocr_pdf {bytes : Type} (bytes_len : bytes -> Z)
           (read_pdf : bytes -> res (pdf_document bytes))
           (the_client : option (vision_client bytes))
           (pdf_bytes : bytes) (filename : str) (start_chunk_pages : Z)
  : res (option str) :=
  match read_pdf pdf_bytes with
  | Raise _ => Ok None
  | Ok document =>
      rbind (read_pages document) (fun pdf =>
        if (page_count pdf =? 0)%Z then Ok None
        else
          rbind (chunk_loop bytes_len (extract_text_sync the_client) pdf filename
                            start_chunk_pages)
            (fun st =>
               Ok (match gathered_text st with
                   | [] => None
                   | g => clean_ocr_text (Some g)
                   end)))
  end.

(** A ten-page PDF: a range of [n] pages serializes to [15 * n] MB. *)
Definition ten_pages : pdf_reader Z :=
  {| page_count := 10;
     write_pages := fun a b => Ok ((b - a) * 15 * 1024 * 1024)%Z |}.

Definition silent_client : vision_client Z :=
  {| document_text_detection := fun _ =>
       Ok {| error_message := []; full_text_annotation := None |};
     batch_annotate_files := fun _ => Ok {| responses := [] |} |}.

Example chunk_loop_ten_pages :
  rbind (chunk_loop (fun n => n) (extract_text_sync (Some silent_client))
                    ten_pages (lit "big.pdf") 5)
        (fun st => Ok (map (fun r => (first_page r, end_page r)) (emitted st)))
  = Ok [(0, 2); (2, 4); (4, 6); (6, 8); (8, 10)]%Z.
Proof. reflexivity. Qed.

(* ===================================================================== *)
(** * The older script, [backend/scripts/master_migration.py] *)
(* ===================================================================== *)

Module Backend.

Section OCR.

Variable bytes : Type.
Variable the_client : option (vision_client bytes).

Definition extract_text_from_image_bytes (content_bytes : bytes)
  : res (option str) :=
  match the_client with
  | None => Raise (RuntimeError (lit "Vision client not initialized"))
  | Some client =>
      rcatch
        (rbind (document_text_detection client content_bytes) (fun response =>
           match error_message response with
           | _ :: _ =>
               Raise (OtherError (lit "Vision API error: " ++ error_message response))
           | [] =>
               match full_text_annotation response with
               | Some annotation => Ok (Some (text annotation))
               | None => Ok None
               end
           end))
        (fun e => Raise e)
  end.

Definition extract_text_from_pdf_bytes (content_bytes : bytes)
  : res (option str) :=
  match the_client with
  | None => Raise (RuntimeError (lit "Vision client not initialized"))
  | Some client =>
      rcatch
        (rbind (batch_annotate_files client content_bytes) (fun response =>
           let pages :=
             match responses response with
             | first :: _ => page_responses first
             | [] => []
             end in
           let full_text :=
             concat (map (fun page =>
                            match page_annotation page with
                            | Some annotation => text annotation ++ [LF; LF]
                            | None => []
                            end) pages) in
           Ok (match full_text with [] => None | _ => Some full_text end)))
        (fun e => Raise e)
  end.

Definition extract_text_sync (content_bytes : bytes) (mime_type : str)
  : res (option str) :=
  rcatch
    (if startswith mime_type (lit "image/")
     then extract_text_from_image_bytes content_bytes
     else if str_eqb mime_type APPLICATION_PDF
          then extract_text_from_pdf_bytes content_bytes
          else Ok None)
    (fun e => Ok None).

End OCR.

Definition dynamic_chunk_and_ocr_pdf {bytes : Type} (bytes_len : bytes -> Z)
           (read_pdf : bytes -> res (pdf_document bytes))
           (the_client : option (vision_client bytes))
           (pdf_bytes : bytes) (start_chunk_pages : Z)
  : res (option str) :=
  match read_pdf pdf_bytes with
  | Raise _ => Ok None
  | Ok document =>
      rbind (read_pages document) (fun pdf =>
        if (page_count pdf =? 0)%Z then Ok None
        else
          rbind (old_chunk_loop bytes_len
                   (fun buf mime _ => extract_text_sync the_client buf mime)
                   pdf [] start_chunk_pages)
            (fun st =>
               Ok (match strip (gathered_text st) with
                   | [] => None
                   | _ => Some (gathered_text st)
                   end)))
  end.

End Backend.

(** The ranges left behind cover pages [0 .. total - 1] once each. *)
Definition partitions (total_pages : Z) (rs : list page_range) : Prop :=
  chained 0 rs total_pages /\
  forall p, count_covering p rs =
            if ((0 <=? p) && (p <? total_pages))%Z then 1%nat else 0%nat.

Lemma chained_partitions (total_pages : Z) (rs : list page_range) :
  chained 0 rs total_pages -> partitions total_pages rs.
Proof. intros H. split; [assumption|]. intros p. apply chained_count. assumption. Qed.

Lemma chunk_loop_partitions (bytes : Type) (bytes_len : bytes -> Z)
      (extract_text : bytes -> str -> str -> res (option str))
      (pdf : pdf_reader bytes) (filename : str) (start_chunk_pages : Z) :
  (0 <= page_count pdf)%Z ->
  exists st,
    chunk_loop bytes_len extract_text pdf filename start_chunk_pages = Ok st /\
    partitions (page_count pdf) (emitted st).
Proof.
  intros Htotal. unfold chunk_loop.
  destruct (@while_pages_returns (page_count pdf)
              (loop_body bytes_len extract_text pdf filename start_chunk_pages)
              (@loop_body_step _ bytes_len extract_text pdf filename
                               start_chunk_pages)
              (initial_state start_chunk_pages)
              (@initial_min start_chunk_pages)) as [st Hst].
  { intros st0 _. apply loop_body_returns. }
  exists st. split; [exact Hst|]. apply chained_partitions.
  eapply while_pages_chained; [| |exact Hst]; cbn; [reflexivity|assumption].
Qed.

Lemma old_chunk_loop_partitions (bytes : Type) (bytes_len : bytes -> Z)
      (extract_text : bytes -> str -> str -> res (option str))
      (pdf : pdf_reader bytes) (filename : str) (start_chunk_pages : Z) :
  (0 <= page_count pdf)%Z ->
  (forall a b, exists buf, write_pages pdf a b = Ok buf) ->
  (forall buf mime label, exists t, extract_text buf mime label = Ok t) ->
  exists st,
    old_chunk_loop bytes_len extract_text pdf filename start_chunk_pages = Ok st /\
    partitions (page_count pdf) (emitted st).
Proof.
  intros Htotal Hwrite Hocr. unfold old_chunk_loop.
  destruct (@while_pages_returns (page_count pdf)
              (old_loop_body bytes_len extract_text pdf filename
                             start_chunk_pages)
              (@try_chunk_step _ bytes_len extract_text pdf filename
                               start_chunk_pages)
              (initial_state start_chunk_pages)
              (@initial_min start_chunk_pages)) as [st Hst].
  { intros st0 _. unfold old_loop_body, try_chunk.
    destruct (Hwrite (page_idx st0)
                (Z.min (page_idx st0 + chunk_pages st0) (page_count pdf)))
      as [buf ->]. cbn [rbind].
    destruct (_ && _); [eexists; reflexivity|].
    destruct (_ && _); [eexists; reflexivity|].
    destruct (Hocr buf APPLICATION_PDF filename) as [t ->]. cbn [rbind].
    eexists; reflexivity. }
  exists st. split; [exact Hst|]. apply chained_partitions.
  eapply while_pages_chained; [| |exact Hst]; cbn; [reflexivity|assumption].
Qed.

Lemma extract_text_sync_returns (bytes : Type)
      (the_client : option (vision_client bytes)) (content_bytes : bytes)
      (mime_type filename : str) :
  exists r, extract_text_sync the_client content_bytes mime_type filename = Ok r.
Proof.
  unfold extract_text_sync.
  destruct (if startswith mime_type (lit "image/") then _ else _);
    cbn [rcatch]; eexists; reflexivity.
Qed.

Lemma old_extract_text_sync_returns (bytes : Type)
      (the_client : option (vision_client bytes)) (content_bytes : bytes)
      (mime_type : str) :
  exists r, Backend.extract_text_sync the_client content_bytes mime_type = Ok r.
Proof.
  unfold Backend.extract_text_sync.
  destruct (if startswith mime_type (lit "image/") then _ else _);
    cbn [rcatch]; eexists; reflexivity.
Qed.

(** C1. For a PDF of at least one page and a starting window of at least one
    page, the chunking loop ends, and the page ranges it leaves behind
    (processed, skipped as over the limit, or dropped by the [except] branch)
    are consecutive and non-empty from page 0 to the last page: every page
    lies in exactly one of them. This holds for the migration script whatever
    the PDF writer and the OCR service answer, and for the older script
    whenever writing a chunk does not raise. *)
Theorem chunk_ranges_partition (bytes : Type) (bytes_len : bytes -> Z)
        (the_client : option (vision_client bytes))
        (pdf : pdf_reader bytes) (filename : str) (start_chunk_pages : Z) :
  (1 <= page_count pdf)%Z -> (1 <= start_chunk_pages)%Z ->
  (exists st,
     chunk_loop bytes_len (extract_text_sync the_client) pdf filename
                start_chunk_pages = Ok st /\
     partitions (page_count pdf) (emitted st))
  /\
  ((forall a b, exists buf, write_pages pdf a b = Ok buf) ->
   exists st,
     old_chunk_loop bytes_len
       (fun buf mime _ => Backend.extract_text_sync the_client buf mime)
       pdf filename start_chunk_pages = Ok st /\
     partitions (page_count pdf) (emitted st)).
Proof.
  intros Htotal Hstart. split.
  - apply chunk_loop_partitions. lia.
  - intros Hwrite. apply old_chunk_loop_partitions; [lia|assumption|].
    intros buf mime _. apply old_extract_text_sync_returns.
Qed.

Lemma chunk_ranges_partition_witness :
  (exists st,
     chunk_loop (fun n => n) (extract_text_sync (Some silent_client)) ten_pages
                (lit "big.pdf") 5 = Ok st /\
     partitions 10 (emitted st))
  /\
  (exists st,
     old_chunk_loop (fun n => n)
       (fun buf mime _ => Backend.extract_text_sync (Some silent_client) buf mime)
       ten_pages (lit "big.pdf") 5 = Ok st /\
     partitions 10 (emitted st)).
Proof.
  destruct (@chunk_ranges_partition Z (fun n => n) (Some silent_client) ten_pages
              (lit "big.pdf") 5 ltac:(cbn; lia) ltac:(lia)) as [H1 H2].
  split; [exact H1|]. apply H2. intros a b. eexists. reflexivity.
Defined.

(* ===================================================================== *)
(** * Storage keys: [build_s3_key], [build_file_url], [build_subject_id] *)
(* ===================================================================== *)

(** Built-in functions whose result depends on the Unicode database or on a
    hash function. [py_int s] is [int(s)] on a string, [None] standing for
    the [ValueError] it raises on an invalid literal. *)
Record builtins := {
  isdigit : char -> bool;         (* str.isdigit *)
  py_int : str -> option Z;       (* int(s) *)
  lower : str -> str;             (* str.lower *)
  uuid5 : str -> str }.           (* str(uuid.uuid5(uuid.NAMESPACE_DNS, s)) *)

(** [str(n)] for an [int]. *)
Definition str_of_int (n : Z) : str :=
  lit (DecimalString.NilZero.string_of_int (Z.to_int n)).

(** [l[i]], which raises [IndexError] outside the list. *)
Definition getitem {A : Type} (l : list A) (i : nat) : res A :=
  match nth_error l i with
  | Some x => Ok x
  | None => Raise (IndexError (lit "list index out of range"))
  end.

(** [l[i] if len(l) > i else default] *)
Definition item_or {A : Type} (l : list A) (i : nat) (default : A) : A :=
  if (Z.of_nat i <? Z.of_nat (length l))%Z then nth i l default else default.

(** The value of [year_component]: an [int] or a [str]. *)
Inductive year_value : Type :=
| YearInt (n : Z)
| YearStr (s : str).

(** How an f-string renders it. *)
Definition format_year (y : year_value) : str :=
  match y with
  | YearInt n => str_of_int n
  | YearStr s => s
  end.

Definition UNKNOWN : str := lit "unknown".
Definition SLASH : str := lit "/".

Section Keys.

Variable py : builtins.

(** [int(''.join(filter(str.isdigit, path_parts[1])))], with the fallback of
    the [except (ValueError, IndexError)] clause. *)
Definition year_of (path_parts : list str) : res year_value :=
  rcatch
    (rbind (getitem path_parts 1) (fun period =>
       match py_int py (filter (isdigit py) period) with
       | Some n => Ok (YearInt n)
       | None => Raise (ValueError (lit "invalid literal for int()"))
       end))
    (fun e =>
       match e with
       | ValueError _ | IndexError _ =>
           Ok (YearStr (item_or path_parts 1 UNKNOWN))
       | _ => Raise e
       end).

Definition build_s3_key (path_parts : list str) (filename : str) : res str :=
  rbind (year_of path_parts) (fun year_component =>
  rbind (getitem path_parts 0) (fun branch =>
    let subject := item_or path_parts 2 UNKNOWN in
    let resource_type := item_or path_parts 3 (lit "Notes") in
    Ok (branch ++ SLASH ++ format_year year_component ++ SLASH ++ subject
          ++ SLASH ++ resource_type ++ SLASH ++ filename))).

Definition build_file_url (bucket : str) (path_parts : list str) (filename : str)
  : res str :=
  rbind (build_s3_key path_parts filename) (fun s3_key =>
    Ok (lit "https://" ++ bucket ++ lit ".s3.amazonaws.com/" ++ s3_key)).

Definition build_subject_id (path_parts : list str) : res str :=
  rbind (getitem path_parts 0) (fun branch =>
  rbind (year_of path_parts) (fun year =>
    let subject_name := item_or path_parts 2 UNKNOWN in
    Ok (uuid5 py (branch ++ lit "-" ++ format_year year ++ lit "-"
                    ++ subject_name)))).

End Keys.

(** The tables restricted to ASCII: digits [0-9], letters [A-Z]. *)
Definition ascii_isdigit (c : char) : bool := ((48 <=? c) && (c <=? 57))%N.

Definition ascii_int (s : str) : option Z :=
  match s with
  | [] => None
  | _ =>
      if forallb ascii_isdigit s
      then Some (fold_left (fun n c => n * 10 + Z.of_N (c - 48))%Z s 0%Z)
      else None
  end.

Definition ascii_lower (s : str) : str :=
  map (fun c => if ((65 <=? c) && (c <=? 90))%N then (c + 32)%N else c) s.

Definition ascii_builtins : builtins :=
  {| isdigit := ascii_isdigit;
     py_int := ascii_int;
     lower := ascii_lower;
     uuid5 := fun s => lit "uuid5:" ++ s |}.

Example build_s3_key_ex1 :
  build_s3_key ascii_builtins
    [lit "CSE"; lit "Semester 03"; lit "Maths"; lit "Books"] (lit "a.pdf")
  = Ok (lit "CSE/3/Maths/Books/a.pdf").
Proof. reflexivity. Qed.

Example build_s3_key_ex2 :
  build_s3_key ascii_builtins [lit "CSE"; lit "First year"] (lit "a.pdf")
  = Ok (lit "CSE/First year/unknown/Notes/a.pdf").
Proof. reflexivity. Qed.

Example build_s3_key_ex3 :
  build_s3_key ascii_builtins [lit "CSE"] (lit "a.pdf")
  = Ok (lit "CSE/unknown/unknown/Notes/a.pdf").
Proof. reflexivity. Qed.

Lemma item_or_nth_error {A : Type} (l : list A) (i : nat) (d : A) :
  item_or l i d = match nth_error l i with Some x => x | None => d end.
Proof.
  unfold item_or. destruct (Z.of_nat i <? Z.of_nat (length l))%Z eqn:E.
  - apply Z.ltb_lt in E.
    destruct (nth_error l i) eqn:N.
    + apply nth_error_nth. assumption.
    + apply nth_error_None in N. lia.
  - apply Z.ltb_ge in E. destruct (nth_error l i) eqn:N; [|reflexivity].
    assert (nth_error l i <> None) as Hn by congruence.
    apply nth_error_Some in Hn. lia.
Qed.

Lemma year_of_returns (py : builtins) (path_parts : list str) :
  year_of py path_parts =
  Ok (match nth_error path_parts 1 with
      | None => YearStr UNKNOWN
      | Some period =>
          match py_int py (filter (isdigit py) period) with
          | Some n => YearInt n
          | None => YearStr period
          end
      end).
Proof.
  unfold year_of, getitem. rewrite item_or_nth_error.
  destruct (nth_error path_parts 1) as [period|]; cbn [rbind rcatch];
    [|reflexivity].
  destruct (py_int py (filter (isdigit py) period)); reflexivity.
Qed.

(** C10. For a non-empty [path_parts], [build_s3_key] returns a key and does
    not raise. The key is [branch/period/subject/resource_type/filename],
    where a missing period is [unknown], a period whose digits do not make
    an integer (in particular a period without digits) is kept as it is, a
    missing subject is [unknown] and a missing resource type is [Notes]. *)
Theorem build_s3_key_defaults (py : builtins) (path_parts : list str)
        (filename : str) :
  py_int py [] = None ->
  path_parts <> [] ->
  exists branch year,
    nth_error path_parts 0 = Some branch /\
    build_s3_key py path_parts filename =
      Ok (branch ++ SLASH ++ year ++ SLASH
            ++ match nth_error path_parts 2 with
               | Some subject => subject
               | None => UNKNOWN
               end
            ++ SLASH
            ++ match nth_error path_parts 3 with
               | Some resource_type => resource_type
               | None => lit "Notes"
               end
            ++ SLASH ++ filename) /\
    (nth_error path_parts 1 = None -> year = UNKNOWN) /\
    (forall period, nth_error path_parts 1 = Some period ->
       filter (isdigit py) period = [] -> year = period).
Proof.
  intros Hint Hne. destruct path_parts as [|branch rest]; [contradiction|].
  exists branch.
  pose proof (year_of_returns py (branch :: rest)) as Hy.
  unfold build_s3_key. rewrite Hy. cbn [rbind getitem nth_error].
  rewrite !item_or_nth_error.
  eexists. split; [reflexivity|]. split; [reflexivity|]. split.
  - intros ->. reflexivity.
  - intros period -> Hnone. rewrite Hnone, Hint. reflexivity.
Qed.

Lemma build_s3_key_defaults_witness :
  exists branch year,
    nth_error [lit "CSE"; lit "First year"] 0 = Some branch /\
    build_s3_key ascii_builtins [lit "CSE"; lit "First year"] (lit "a.pdf") =
      Ok (branch ++ SLASH ++ year ++ SLASH ++ UNKNOWN ++ SLASH ++ lit "Notes"
            ++ SLASH ++ lit "a.pdf") /\
    (nth_error [lit "CSE"; lit "First year"] 1 = None -> year = UNKNOWN) /\
    (forall period, nth_error [lit "CSE"; lit "First year"] 1 = Some period ->
       filter ascii_isdigit period = [] -> year = period).
Proof.
  apply (@build_s3_key_defaults ascii_builtins [lit "CSE"; lit "First year"]
           (lit "a.pdf")).
  - reflexivity.
  - discriminate.
Defined.

(* ===================================================================== *)
(** * The outside world of the per-file pipeline *)
(* ===================================================================== *)

(** How the file system, the object store, the record store and the OCR
    service answer, together with the module-level configuration. A client
    flag is [false] when the client is [None]. [upload_file key k] answers
    the [k]-th upload attempt for [key], counted from 0. A select answers
    with [bool(resp.data)]. *)
Record env (bytes : Type) := {
  S3_BUCKET_NAME : str;
  DRY_RUN : bool;
  supabase : bool;
  s3_client : bool;
  vision : option (vision_client bytes);
  bytes_len : bytes -> Z;
  getsize : str -> res Z;
  read_file : str -> res bytes;
  read_pdf : bytes -> res (pdf_document bytes);
  notes_select : str -> res bool;
  books_select : str -> res bool;
  upload_file : str -> nat -> res unit;
  subjects_select : str -> res bool;
  subjects_insert : str -> res unit;
  notes_insert : metadata -> res unit;
  books_insert : metadata -> res unit;
  uuid4 : str }.

(** [(root, filename, path_parts)] as [collect_files_from_path] returns it. *)
Definition file_tuple : Type := str * str * list str.

(** The status dict returned by [process_file]. *)
Record result := {
  success : bool;
  reason : str;
  filename_of : str;
  error_details : option str }.

Definition is_upload_of (key : str) (ev : event) : bool :=
  match ev with
  | EvUpload k => str_eqb k key
  | _ => false
  end.

Definition count_uploads (key : str) (l : log) : nat :=
  length (filter (is_upload_of key) l).

(** [s.split(sep)] for a one-character separator. *)
Fixpoint split_on_from (sep : char) (cur : str) (s : str) : list str :=
  match s with
  | [] => [cur]
  | c :: s' =>
      if (c =? sep)%N then cur :: split_on_from sep [] s'
      else split_on_from sep (cur ++ [c]) s'
  end.

Definition split_on (sep : char) (s : str) : list str := split_on_from sep [] s.

Definition DOT : char := 46%N.

Section Pipeline.

Variable bytes : Type.
Variable py : builtins.
Variable e : env bytes.

(* --------------------------------------------------------------------- *)
(** ** Object store *)

(** The inner function [_upload] of [s3_upload_file]. *)
Definition _upload (key : str) : M unit :=
  fun l => (upload_file e key (count_uploads key l), l ++ [EvUpload key]).

(** [get_s3_metadata] only chooses the headers sent along with the upload
    and cannot raise; it is left out of the model. *)
Definition s3_upload_file (local_path bucket key : str) : M (option unit) :=
  if negb (s3_client e) then raise (RuntimeError (lit "S3 client not initialized"))
  else if DRY_RUN e then ret None
  else retry_loop (_upload key) MAX_RETRIES RETRY_BACKOFF_BASE (fun _ => true)
                  false 1.

(* --------------------------------------------------------------------- *)
(** ** Record store *)

Definition note_exists_in_db (s3_url : str) : M bool :=
  if negb (supabase e) then ret false
  else try_except (external (EvSelectNote s3_url) (notes_select e s3_url))
                  (fun _ => ret false).

Definition book_exists_in_db (s3_url : str) : M bool :=
  if negb (supabase e) then ret false
  else try_except (external (EvSelectBook s3_url) (books_select e s3_url))
                  (fun _ => ret false).

Definition ensure_subject_record (path_parts : list str) : M str :=
  if negb (supabase e) then raise (RuntimeError (lit "Supabase client not initialized"))
  else
    subject_id <- lift (build_subject_id py path_parts) ;;
    if DRY_RUN e then ret subject_id
    else
      found <- try_except
                 (external (EvSelectSubject subject_id)
                           (subjects_select e subject_id))
                 (fun _ => ret false) ;;
      if found then ret subject_id
      else
        try_except (external (EvInsertSubject subject_id)
                             (subjects_insert e subject_id))
                   (fun _ => ret tt) ;;;
        ret subject_id.

(** ['duplicate key' in error_str.lower() or '23505' in error_str] *)
Definition is_duplicate_error (error_str : str) : bool :=
  contains (lit "duplicate key") (lower py error_str)
  || contains (lit "23505") error_str.

Definition insert_note_record (row : metadata) : M unit :=
  if negb (supabase e) then raise (RuntimeError (lit "Supabase client not initialized"))
  else if DRY_RUN e then ret tt
  else
    try_except (external (EvInsertNote row) (notes_insert e row))
      (fun ex =>
         if is_duplicate_error (exn_str ex)
         then raise (DuplicateRecordError (lit "Duplicate: " ++ md_file_name row))
         else raise ex).

Definition insert_book_record (row : metadata) : M unit :=
  if negb (supabase e) then raise (RuntimeError (lit "Supabase client not initialized"))
  else if DRY_RUN e then ret tt
  else
    try_except (external (EvInsertBook row) (books_insert e row))
               (fun ex => raise ex).

(* --------------------------------------------------------------------- *)
(** ** Per-file pipeline: [process_file] *)

Definition MODE_BOOKS : str := lit "books".
Definition MODE_NOTES_WITH_OCR : str := lit "notes_with_ocr".
Definition MODE_NOTES_NO_OCR : str := lit "notes_no_ocr".

(** [filename.lower().split('.')[-1]] *)
Definition extension (filename : str) : str :=
  last (split_on DOT (lower py filename)) [].

(** The OCR branch of [process_file]. *)
Definition ocr_file (file_path filename : str) (file_size : Z) : M (option str) :=
  let ext := extension filename in
  if str_eqb ext (lit "pdf") && (file_size >? SYNC_LIMIT)%Z
  then
    file_bytes <- external EvReadFile (read_file e file_path) ;;
    lift (dynamic_chunk_and_ocr_pdf (bytes_len e) (read_pdf e) (vision e)
                                    file_bytes [] DEFAULT_CHUNK_PAGES)
  else
    content <- external EvReadFile (read_file e file_path) ;;
    let mime :=
      if str_eqb ext (lit "pdf") then APPLICATION_PDF
      else lit "image/" ++ (if str_eqb ext (lit "jpg") then lit "jpeg" else ext) in
    lift (extract_text_sync (vision e) content mime []).

Definition status (ok : bool) (why filename : str) : result :=
  {| success := ok; reason := why; filename_of := filename;
     error_details := None |}.

(** The [try] block of [process_file]. [os.path.join(root, filename)] is
    written with the POSIX separator; the path is only used to ask the file
    system. *)
Definition process_file_try (file : file_tuple) (mode : str) : M result :=
  let '(root, filename, path_parts) := file in
  let file_path := root ++ SLASH ++ filename in
  file_size <- external EvGetSize (getsize e file_path) ;;
  file_url <- lift (build_file_url py (S3_BUCKET_NAME e) path_parts filename) ;;
  s3_key <- lift (build_s3_key py path_parts filename) ;;
  let is_note := negb (str_eqb mode MODE_BOOKS) in
  let exists_checker := if is_note then note_exists_in_db else book_exists_in_db in
  found <- exists_checker file_url ;;
  if found then ret (status false (lit "already_exists") filename)
  else
    s3_upload_file file_path (S3_BUCKET_NAME e) s3_key ;;;
    if DRY_RUN e then ret (status true (lit "dry_run") filename)
    else
      subject_id <- ensure_subject_record path_parts ;;
      branch <- lift (getitem path_parts 0) ;;
      let base_metadata (ocr_text : option str) (is_ocr_done : option bool) :=
        {| md_id := uuid4 e;
           md_subject_id := subject_id;
           md_branch := branch;
           md_semester := item_or path_parts 1 UNKNOWN;
           md_subject := item_or path_parts 2 UNKNOWN;
           md_file_name := filename;
           md_s3_url := file_url;
           md_ocr_text := ocr_text;
           md_is_ocr_done := is_ocr_done |} in
      row <- (if str_eqb mode MODE_NOTES_WITH_OCR
              then extracted_text <- ocr_file file_path filename file_size ;;
                   ret (base_metadata extracted_text (Some (truthy extracted_text)))
              else if str_eqb mode MODE_NOTES_NO_OCR
                   then ret (base_metadata None (Some false))
                   else ret (base_metadata None None)) ;;
      (if str_eqb mode MODE_BOOKS
       then insert_book_record row
       else insert_note_record row) ;;;
      ret (status true [] filename).

Definition process_file (file : file_tuple) (mode : str) : M result :=
  let '(_, filename, _) := file in
  try_except (process_file_try file mode)
    (fun ex =>
       match ex with
       | DuplicateRecordError _ =>
           ret (status false (lit "already_exists_duplicate") filename)
       | _ =>
           ret {| success := false;
                  reason := take 200 (exn_str ex);
                  filename_of := filename;
                  error_details := Some (exn_str ex) |}
       end).

(* --------------------------------------------------------------------- *)
(** ** Batch coordinator: [migrate_with_mode] *)

(** The counters and the failure list of the batch. *)
Record report := {
  total : Z;
  succeeded : Z;
  skipped : Z;
  failed : Z;
  failed_files : list (str * str * str) }.

Definition is_skip_reason (why : str) : bool :=
  str_eqb why (lit "already_exists")
  || str_eqb why (lit "already_exists_duplicate").

(** One turn of [for future in as_completed(futures)]: [future.result()] is
    the status dict, or the exception that left the worker. *)
Definition tally (rep : report) (future : res result) : report :=
  match future with
  | Ok r =>
      if success r
      then {| total := total rep; succeeded := succeeded rep + 1;
              skipped := skipped rep; failed := failed rep;
              failed_files := failed_files rep |}
      else if is_skip_reason (reason r)
      then {| total := total rep; succeeded := succeeded rep;
              skipped := skipped rep + 1; failed := failed rep;
              failed_files := failed_files rep |}
      else {| total := total rep; succeeded := succeeded rep;
              skipped := skipped rep; failed := failed rep + 1;
              failed_files := failed_files rep ++
                [(filename_of r, reason r,
                  match error_details r with
                  | Some d => d
                  | None => lit "no details available"
                  end)] |}
  | Raise _ =>
      {| total := total rep; succeeded := succeeded rep;
         skipped := skipped rep; failed := failed rep + 1;
         failed_files := failed_files rep |}
  end.

Definition aggregate (total_files : Z) (futures : list (res result)) : report :=
  fold_left tally futures
    {| total := total_files; succeeded := 0; skipped := 0; failed := 0;
       failed_files := [] |}.

(** What a worker hands back for one file. *)
Definition run_worker (mode : str) (file : file_tuple) : res result :=
  fst (process_file file mode []).

(** [migrate_with_mode], given the files found and the order in which the
    workers complete; [None] when no file was found and no report is made. *)
Definition migrate_with_mode (mode : str) (all_files completed : list file_tuple)
  : option report :=
  match all_files with
  | [] => None
  | _ => Some (aggregate (Z.of_nat (length all_files))
                         (map (run_worker mode) completed))
  end.

End Pipeline.

Arguments process_file {bytes} py e file mode.
Arguments process_file_try {bytes} py e file mode.
Arguments run_worker {bytes} py e mode file.
Arguments migrate_with_mode {bytes} py e mode all_files completed.
Arguments insert_note_record {bytes} py e row.
Arguments insert_book_record {bytes} e row.
Arguments s3_upload_file {bytes} e local_path bucket key.
Arguments ensure_subject_record {bytes} py e path_parts.
Arguments note_exists_in_db {bytes} e s3_url.
Arguments book_exists_in_db {bytes} e s3_url.
Arguments ocr_file {bytes} py e file_path filename file_size.

(* --------------------------------------------------------------------- *)
(** ** A small world for examples *)

(** Files [n0.pdf] .. [n99.pdf] of one subject folder. *)
Definition sample_parts : list str :=
  [lit "CSE"; lit "Semester 3"; lit "Maths"; lit "Notes"].

Definition sample_file (i : nat) : file_tuple :=
  (lit "/data/CSE/Semester 3/Maths/Notes",
   lit "n" ++ str_of_int (Z.of_nat i) ++ lit ".pdf",
   sample_parts).

Definition sample_files : list file_tuple := map sample_file (seq 0 100).

Definition sample_key (i : nat) : str :=
  lit "CSE/3/Maths/Notes/n" ++ str_of_int (Z.of_nat i) ++ lit ".pdf".

Definition sample_url (i : nat) : str :=
  lit "https://vault.s3.amazonaws.com/" ++ sample_key i.

Definition mem (s : str) (l : list str) : bool := existsb (str_eqb s) l.

(** Files 0..9 are in the [notes] table already; every upload attempt for
    files 10..14 times out; everything else succeeds. *)
Definition sample_env : env Z :=
  {| S3_BUCKET_NAME := lit "vault";
     DRY_RUN := false;
     supabase := true;
     s3_client := true;
     vision := Some silent_client;
     bytes_len := fun n => n;
     getsize := fun _ => Ok 2048%Z;
     read_file := fun _ => Ok 2048%Z;
     read_pdf := fun _ => Ok {| read_pages := Ok ten_pages |};
     notes_select := fun url => Ok (mem url (map sample_url (seq 0 10)));
     books_select := fun _ => Ok false;
     upload_file := fun key _ =>
       if mem key (map sample_key (seq 10 5))
       then Raise (OtherError (lit "Connection timed out"))
       else Ok tt;
     subjects_select := fun _ => Ok true;
     subjects_insert := fun _ => Ok tt;
     notes_insert := fun _ => Ok tt;
     books_insert := fun _ => Ok tt;
     uuid4 := lit "00000000-0000-4000-8000-000000000000" |}.

(** The row inserted for file [i] in mode [notes_no_ocr]. *)
Definition sample_row (i : nat) : metadata :=
  {| md_id := lit "00000000-0000-4000-8000-000000000000";
     md_subject_id := lit "uuid5:CSE-3-Maths";
     md_branch := lit "CSE";
     md_semester := lit "Semester 3";
     md_subject := lit "Maths";
     md_file_name := lit "n" ++ str_of_int (Z.of_nat i) ++ lit ".pdf";
     md_s3_url := sample_url i;
     md_ocr_text := None;
     md_is_ocr_done := Some false |}.

Example process_file_uploads_and_inserts :
  process_file ascii_builtins sample_env (sample_file 20) (lit "notes_no_ocr") []
  = (Ok (status true [] (lit "n20.pdf")),
     [EvGetSize; EvSelectNote (sample_url 20); EvUpload (sample_key 20);
      EvSelectSubject (lit "uuid5:CSE-3-Maths"); EvInsertNote (sample_row 20)]).
Proof. vm_compute. reflexivity. Qed.

Example process_file_upload_exhausted :
  process_file ascii_builtins sample_env (sample_file 12) (lit "notes_no_ocr") []
  = (Ok {| success := false; reason := lit "Connection timed out";
        filename_of := lit "n12.pdf";
        error_details := Some (lit "Connection timed out") |},
     [EvGetSize; EvSelectNote (sample_url 12);
      EvUpload (sample_key 12); EvSleep 1;
      EvUpload (sample_key 12); EvSleep (1 * RETRY_BACKOFF_BASE);
      EvUpload (sample_key 12);
      EvSleep (1 * RETRY_BACKOFF_BASE * RETRY_BACKOFF_BASE);
      EvUpload (sample_key 12)]).
Proof. vm_compute. reflexivity. Qed.

(* ===================================================================== *)
(** * Properties of the per-file pipeline *)
(* ===================================================================== *)

Definition is_upload (ev : event) : bool :=
  match ev with EvUpload _ => true | _ => false end.

Definition is_insert (ev : event) : bool :=
  match ev with EvInsertNote _ | EvInsertBook _ => true | _ => false end.

(** The calls that change the object store or the record store. *)
Definition is_write (ev : event) : bool :=
  match ev with
  | EvUpload _ | EvInsertSubject _ | EvInsertNote _ | EvInsertBook _ => true
  | _ => false
  end.

(** C5. When the existence check is reached and the record store has a row
    for the derived URL, [process_file] makes no upload attempt and no insert
    attempt (it makes no call that writes to either store at all), returns
    the status [already_exists], and the batch counts the file as skipped. *)
Theorem existing_file_is_skipped (bytes : Type) (py : builtins) (e : env bytes)
        (root filename : str) (path_parts : list str) (mode : str)
        (size : Z) (url : str) :
  getsize e (root ++ SLASH ++ filename) = Ok size ->
  build_file_url py (S3_BUCKET_NAME e) path_parts filename = Ok url ->
  supabase e = true ->
  (if str_eqb mode MODE_BOOKS then books_select e url else notes_select e url)
    = Ok true ->
  exists l,
    process_file py e (root, filename, path_parts) mode [] =
      (Ok (status false (lit "already_exists") filename), l) /\
    filter is_upload l = [] /\
    filter is_insert l = [] /\
    filter is_write l = [] /\
    let rep := aggregate 1 [run_worker py e mode (root, filename, path_parts)] in
    (succeeded rep, skipped rep, failed rep) = (0, 1, 0)%Z.
Proof.
  intros Hsize Hurl Hdb Hsel.
  assert (exists key, build_s3_key py path_parts filename = Ok key) as [key Hkey].
  { unfold build_file_url in Hurl.
    destruct (build_s3_key py path_parts filename) as [key|];
      [eexists; reflexivity|discriminate]. }
  assert (process_file py e (root, filename, path_parts) mode [] =
          (Ok (status false (lit "already_exists") filename),
           [EvGetSize;
            if str_eqb mode MODE_BOOKS then EvSelectBook url
            else EvSelectNote url])) as Hrun.
  { unfold process_file, process_file_try, try_except, bind, external, lift.
    cbn [app]. rewrite Hsize, Hurl, Hkey.
    unfold note_exists_in_db, book_exists_in_db, try_except, external, ret.
    rewrite Hdb. cbn [negb].
    destruct (str_eqb mode MODE_BOOKS); cbn [negb app]; rewrite Hsel;
      reflexivity. }
  eexists. split; [exact Hrun|].
  unfold run_worker, aggregate. rewrite Hrun.
  destruct (str_eqb mode MODE_BOOKS); repeat split; reflexivity.
Qed.

Lemma existing_file_is_skipped_witness :
  exists l,
    process_file ascii_builtins sample_env (sample_file 3) (lit "notes_no_ocr") [] =
      (Ok (status false (lit "already_exists") (lit "n3.pdf")), l) /\
    filter is_upload l = [] /\
    filter is_insert l = [] /\
    filter is_write l = [] /\
    let rep := aggregate 1 [run_worker ascii_builtins sample_env
                              (lit "notes_no_ocr") (sample_file 3)] in
    (succeeded rep, skipped rep, failed rep) = (0, 1, 0)%Z.
Proof.
  apply (@existing_file_is_skipped Z ascii_builtins sample_env
           (lit "/data/CSE/Semester 3/Maths/Notes") (lit "n3.pdf") sample_parts
           (lit "notes_no_ocr") 2048%Z (sample_url 3)); reflexivity.
Defined.

(* --------------------------------------------------------------------- *)
(** ** Where the note insert sits in a run *)

(** The rows for which an insert into [notes] was attempted. *)
Definition note_inserts (l : log) : list metadata :=
  flat_map (fun ev => match ev with EvInsertNote row => [row] | _ => [] end) l.

Lemma note_inserts_app (l1 l2 : log) :
  note_inserts (l1 ++ l2) = note_inserts l1 ++ note_inserts l2.
Proof. apply flat_map_app. Qed.

(** A computation that attempts no insert into [notes]. *)
Definition quiet {A : Type} (m : M A) : Prop :=
  forall l, note_inserts (snd (m l)) = note_inserts l.

Lemma quiet_ret {A : Type} (a : A) : quiet (ret a).
Proof. intros l. reflexivity. Qed.

Lemma quiet_raise {A : Type} (ex : exn) : quiet (@raise A ex).
Proof. intros l. reflexivity. Qed.

Lemma quiet_lift {A : Type} (r : res A) : quiet (lift r).
Proof. intros l. reflexivity. Qed.

Lemma quiet_external {A : Type} (ev : event) (answer : res A) :
  note_inserts [ev] = [] -> quiet (external ev answer).
Proof.
  intros H l. unfold external. cbn [snd].
  rewrite note_inserts_app, H, app_nil_r. reflexivity.
Qed.

Lemma quiet_bind {A B : Type} (m : M A) (k : A -> M B) :
  quiet m -> (forall a, quiet (k a)) -> quiet (bind m k).
Proof.
  intros Hm Hk l. unfold bind. specialize (Hm l).
  destruct (m l) as [[a|ex] l1]; cbn [snd] in *.
  - rewrite (Hk a l1). assumption.
  - assumption.
Qed.

Lemma quiet_try_except {A : Type} (m : M A) (h : exn -> M A) :
  quiet m -> (forall ex, quiet (h ex)) -> quiet (try_except m h).
Proof.
  intros Hm Hh l. unfold try_except. specialize (Hm l).
  destruct (m l) as [[a|ex] l1]; cbn [snd] in *.
  - assumption.
  - rewrite (Hh ex l1). assumption.
Qed.

Lemma quiet_retry_from {A : Type} (func : M A) (max_retries : Z) (backoff : Q)
      (allowed : exn -> bool) (swallow : bool) :
  quiet func ->
  forall (n : nat) (attempt : Z) (delay : Q) (l : log),
    Z.to_nat (max_retries - attempt) = n ->
    note_inserts
      (snd (retry_from func max_retries backoff allowed swallow attempt delay l))
    = note_inserts l.
Proof.
  intros Hf. induction n as [n IH] using lt_wf_ind.
  intros attempt delay l Hn. rewrite retry_from_step.
  specialize (Hf l). destruct (func l) as [[a|ex] l1]; cbn [snd] in *;
    [assumption|].
  destruct (allowed ex); [|assumption].
  destruct (attempt + 1 >? max_retries)%Z eqn:E; [assumption|].
  rewrite (IH (Z.to_nat (max_retries - (attempt + 1)))) by (try reflexivity; lia).
  rewrite note_inserts_app, Hf. cbn. apply app_nil_r.
Qed.

Lemma quiet_retry_loop {A : Type} (func : M A) (max_retries : Z) (backoff : Q)
      (allowed : exn -> bool) (swallow : bool) (initial_delay : Q) :
  quiet func ->
  quiet (retry_loop func max_retries backoff allowed swallow initial_delay).
Proof.
  intros Hf l. unfold retry_loop. eapply quiet_retry_from; [assumption|reflexivity].
Qed.

Section InsertLast.

Variable bytes : Type.
Variable py : builtins.
Variable e : env bytes.
Variable filename : str.

Lemma quiet_s3_upload_file (local_path bucket key : str) :
  quiet (s3_upload_file e local_path bucket key).
Proof.
  unfold s3_upload_file.
  destruct (negb (s3_client e)); [apply quiet_raise|].
  destruct (DRY_RUN e); [apply quiet_ret|].
  apply quiet_retry_loop. intros l. unfold _upload. cbn [snd].
  rewrite note_inserts_app. cbn. apply app_nil_r.
Qed.

Lemma quiet_note_exists_in_db (url : str) : quiet (note_exists_in_db e url).
Proof.
  unfold note_exists_in_db. destruct (negb (supabase e)); [apply quiet_ret|].
  apply quiet_try_except; [apply quiet_external; reflexivity|].
  intros ex. apply quiet_ret.
Qed.

Lemma quiet_book_exists_in_db (url : str) : quiet (book_exists_in_db e url).
Proof.
  unfold book_exists_in_db. destruct (negb (supabase e)); [apply quiet_ret|].
  apply quiet_try_except; [apply quiet_external; reflexivity|].
  intros ex. apply quiet_ret.
Qed.

Lemma quiet_ensure_subject_record (path_parts : list str) :
  quiet (ensure_subject_record py e path_parts).
Proof.
  unfold ensure_subject_record.
  destruct (negb (supabase e)); [apply quiet_raise|].
  apply quiet_bind; [apply quiet_lift|]. intros subject_id.
  destruct (DRY_RUN e); [apply quiet_ret|].
  apply quiet_bind.
  - apply quiet_try_except; [apply quiet_external; reflexivity|].
    intros ex. apply quiet_ret.
  - intros found. destruct found; [apply quiet_ret|].
    apply quiet_bind; [|intros _; apply quiet_ret].
    apply quiet_try_except; [apply quiet_external; reflexivity|].
    intros ex. apply quiet_ret.
Qed.

Lemma quiet_ocr_file (file_path name : str) (file_size : Z) :
  quiet (ocr_file py e file_path name file_size).
Proof.
  unfold ocr_file. destruct (_ && _).
  - apply quiet_bind; [apply quiet_external; reflexivity|].
    intros b. apply quiet_lift.
  - apply quiet_bind; [apply quiet_external; reflexivity|].
    intros b. apply quiet_lift.
Qed.

Lemma quiet_insert_book_record (row : metadata) :
  quiet (insert_book_record e row).
Proof.
  unfold insert_book_record.
  destruct (negb (supabase e)); [apply quiet_raise|].
  destruct (DRY_RUN e); [apply quiet_ret|].
  apply quiet_try_except; [apply quiet_external; reflexivity|].
  intros ex. apply quiet_raise.
Qed.

(** What leaves the [try] block of [process_file] once the insert of [row]
    into [notes] has been attempted. *)
Definition insert_outcome (row : metadata) : res result :=
  match notes_insert e row with
  | Ok _ => Ok (status true [] filename)
  | Raise ex =>
      Raise (if is_duplicate_error py (exn_str ex)
             then DuplicateRecordError (lit "Duplicate: " ++ md_file_name row)
             else ex)
  end.

(** A computation that attempts at most one insert into [notes], as its
    last effect, and whose outcome is then decided by that insert. *)
Definition insert_last (m : M result) : Prop :=
  forall l,
    note_inserts (snd (m l)) = note_inserts l \/
    exists row,
      note_inserts (snd (m l)) = note_inserts l ++ [row] /\
      fst (m l) = insert_outcome row.

Lemma insert_last_quiet (m : M result) : quiet m -> insert_last m.
Proof. intros H l. left. apply H. Qed.

Lemma insert_last_bind {A : Type} (m : M A) (k : A -> M result) :
  quiet m -> (forall a, insert_last (k a)) -> insert_last (bind m k).
Proof.
  intros Hm Hk l. unfold bind. specialize (Hm l).
  destruct (m l) as [[a|ex] l1]; cbn [snd] in *.
  - rewrite <- Hm. apply Hk.
  - left. assumption.
Qed.

Lemma insert_last_note (row : metadata) :
  insert_last (insert_note_record py e row ;;; ret (status true [] filename)).
Proof.
  intros l. unfold insert_note_record.
  destruct (negb (supabase e)); [left; reflexivity|].
  destruct (DRY_RUN e); [left; reflexivity|].
  right. exists row.
  unfold bind, try_except, external, insert_outcome, raise, ret.
  destruct (notes_insert e row) as [u|ex]; cbn [fst snd].
  - rewrite note_inserts_app. split; reflexivity.
  - destruct (is_duplicate_error py (exn_str ex)); cbn [fst snd];
      rewrite note_inserts_app; split; reflexivity.
Qed.

Lemma insert_last_process_file_try (root : str) (path_parts : list str)
      (mode : str) :
  insert_last (process_file_try py e (root, filename, path_parts) mode).
Proof.
  unfold process_file_try.
  apply insert_last_bind; [apply quiet_external; reflexivity|]. intros file_size.
  apply insert_last_bind; [apply quiet_lift|]. intros file_url.
  apply insert_last_bind; [apply quiet_lift|]. intros s3_key.
  apply insert_last_bind.
  { destruct (negb (str_eqb mode MODE_BOOKS));
      [apply quiet_note_exists_in_db|apply quiet_book_exists_in_db]. }
  intros found. destruct found; [apply insert_last_quiet, quiet_ret|].
  apply insert_last_bind; [apply quiet_s3_upload_file|]. intros _.
  destruct (DRY_RUN e); [apply insert_last_quiet, quiet_ret|].
  apply insert_last_bind; [apply quiet_ensure_subject_record|]. intros subject_id.
  apply insert_last_bind; [apply quiet_lift|]. intros branch.
  apply insert_last_bind.
  { destruct (str_eqb mode MODE_NOTES_WITH_OCR).
    - apply quiet_bind; [apply quiet_ocr_file|]. intros t. apply quiet_ret.
    - destruct (str_eqb mode MODE_NOTES_NO_OCR); apply quiet_ret. }
  intros row. destruct (str_eqb mode MODE_BOOKS).
  - apply insert_last_quiet. apply quiet_bind; [apply quiet_insert_book_record|].
    intros _. apply quiet_ret.
  - apply insert_last_note.
Qed.

End InsertLast.

Lemma in_note_inserts (row : metadata) (l : log) :
  In (EvInsertNote row) l -> In row (note_inserts l).
Proof.
  intros H. unfold note_inserts. apply in_flat_map.
  exists (EvInsertNote row). split; [assumption|left; reflexivity].
Qed.

(** X24. When the insert of a row into [notes] is answered with a
    duplicate-key error, [insert_note_record] raises [DuplicateRecordError],
    [process_file] turns it into the status [already_exists_duplicate], and
    the batch counts the file as skipped, not as failed. *)
Theorem duplicate_note_insert_is_skipped (bytes : Type) (py : builtins)
        (e : env bytes) (root filename : str) (path_parts : list str)
        (mode : str) (row : metadata) (ex : exn) :
  In (EvInsertNote row)
     (snd (process_file py e (root, filename, path_parts) mode [])) ->
  notes_insert e row = Raise ex ->
  is_duplicate_error py (exn_str ex) = true ->
  fst (process_file py e (root, filename, path_parts) mode []) =
    Ok (status false (lit "already_exists_duplicate") filename) /\
  let rep := aggregate 1 [run_worker py e mode (root, filename, path_parts)] in
  (succeeded rep, skipped rep, failed rep) = (0, 1, 0)%Z /\
  failed_files rep = [].
Proof.
  intros Hin Hans Hdup.
  pose proof (@insert_last_process_file_try bytes py e filename root path_parts
                mode []) as Hlast.
  assert (process_file py e (root, filename, path_parts) mode [] =
          (Ok (status false (lit "already_exists_duplicate") filename),
           snd (process_file_try py e (root, filename, path_parts) mode [])))
    as Hrun.
  { unfold process_file, try_except in *.
    destruct (process_file_try py e (root, filename, path_parts) mode [])
      as [out l] eqn:Htry.
    cbn [fst snd] in *.
    assert (snd (match out with
                 | Ok a => (Ok a, l)
                 | Raise ex0 =>
                     match ex0 with
                     | DuplicateRecordError _ =>
                         ret (status false (lit "already_exists_duplicate")
                                     filename)
                     | _ => ret {| success := false;
                                   reason := take 200 (exn_str ex0);
                                   filename_of := filename;
                                   error_details := Some (exn_str ex0) |}
                     end l
                 end) = l) as Hsnd.
    { destruct out as [a|[]]; reflexivity. }
    rewrite Hsnd in Hin. apply in_note_inserts in Hin.
    destruct Hlast as [Hnone|[row' [Hone Hout]]].
    - rewrite Hnone in Hin. contradiction.
    - rewrite Hone in Hin. cbn in Hin. destruct Hin as [->|[]].
      rewrite Hout. unfold insert_outcome. rewrite Hans, Hdup. reflexivity. }
  rewrite Hrun. split; [reflexivity|].
  unfold run_worker, aggregate. rewrite Hrun. split; reflexivity.
Qed.

(** [e] with other answers to the inserts into [notes] and [books]. *)
Definition with_inserts {bytes : Type} (e : env bytes)
           (notes_answer books_answer : metadata -> res unit) : env bytes :=
  {| S3_BUCKET_NAME := S3_BUCKET_NAME e;
     DRY_RUN := DRY_RUN e;
     supabase := supabase e;
     s3_client := s3_client e;
     vision := vision e;
     bytes_len := bytes_len e;
     getsize := getsize e;
     read_file := read_file e;
     read_pdf := read_pdf e;
     notes_select := notes_select e;
     books_select := books_select e;
     upload_file := upload_file e;
     subjects_select := subjects_select e;
     subjects_insert := subjects_insert e;
     notes_insert := notes_answer;
     books_insert := books_answer;
     uuid4 := uuid4 e |}.

Definition unique_violation : exn :=
  OtherError (lit "duplicate key value violates unique constraint (23505)").

(** Another writer has inserted every row in the meantime. *)
Definition raced_env : env Z :=
  with_inserts sample_env (fun _ => Raise unique_violation)
                          (fun _ => Raise unique_violation).

Lemma duplicate_note_insert_is_skipped_witness :
  fst (process_file ascii_builtins raced_env (sample_file 20)
                    (lit "notes_no_ocr") []) =
    Ok (status false (lit "already_exists_duplicate") (lit "n20.pdf")) /\
  let rep := aggregate 1 [run_worker ascii_builtins raced_env
                            (lit "notes_no_ocr") (sample_file 20)] in
  (succeeded rep, skipped rep, failed rep) = (0, 1, 0)%Z /\
  failed_files rep = [].
Proof.
  apply (@duplicate_note_insert_is_skipped Z ascii_builtins raced_env
           (lit "/data/CSE/Semester 3/Maths/Notes") (lit "n20.pdf") sample_parts
           (lit "notes_no_ocr") (sample_row 20) unique_violation).
  - vm_compute. tauto.
  - reflexivity.
  - reflexivity.
Defined.

Definition book_file : file_tuple :=
  (lit "/data/CSE/Semester 3/Maths/Books", lit "calculus.pdf",
   [lit "CSE"; lit "Semester 3"; lit "Maths"; lit "Books"]).

(** C4. In mode [books] the code does not do what the claim says. The
    insert of the row into [books] is answered with a duplicate-key error;
    [insert_book_record], unlike [insert_note_record], raises it unchanged,
    so the [DuplicateRecordError] handler of [process_file] does not apply:
    the status is a failure whose reason is the text of the store's error,
    and the batch counts the file as failed, not as skipped. *)
Lemma duplicate_book_insert_is_failed :
  exists row,
    In (EvInsertBook row)
       (snd (process_file ascii_builtins raced_env book_file (lit "books") [])) /\
    books_insert raced_env row = Raise unique_violation /\
    is_duplicate_error ascii_builtins (exn_str unique_violation) = true /\
    fst (process_file ascii_builtins raced_env book_file (lit "books") []) =
      Ok {| success := false;
            reason := exn_str unique_violation;
            filename_of := lit "calculus.pdf";
            error_details := Some (exn_str unique_violation) |} /\
    let rep := aggregate 1 [run_worker ascii_builtins raced_env (lit "books")
                              book_file] in
    (succeeded rep, skipped rep, failed rep) = (0, 0, 1)%Z.
Proof.
  eexists. split; [vm_compute; do 4 right; left; reflexivity|].
  split; [reflexivity|]. split; [vm_compute; reflexivity|].
  split; vm_compute; reflexivity.
Qed.

(* ===================================================================== *)
(** * Properties of the batch coordinator *)
(* ===================================================================== *)

(** The counter a completed future goes to. *)
Inductive counter : Type := AsSucceeded | AsSkipped | AsFailed.

Definition counter_eqb (a b : counter) : bool :=
  match a, b with
  | AsSucceeded, AsSucceeded | AsSkipped, AsSkipped | AsFailed, AsFailed => true
  | _, _ => false
  end.

Definition classify (future : res result) : counter :=
  match future with
  | Ok r =>
      if success r then AsSucceeded
      else if is_skip_reason (reason r) then AsSkipped
      else AsFailed
  | Raise _ => AsFailed
  end.

(** How many of the futures go to counter [c]. *)
Definition count_as (c : counter) (futures : list (res result)) : Z :=
  Z.of_nat (length (filter (fun f => counter_eqb (classify f) c) futures)).

Lemma count_as_cons (c : counter) (f : res result) (futures : list (res result)) :
  count_as c (f :: futures) =
  ((if counter_eqb (classify f) c then 1 else 0) + count_as c futures)%Z.
Proof.
  unfold count_as. cbn [filter].
  destruct (counter_eqb (classify f) c); cbn [length]; lia.
Qed.

Lemma count_as_total (futures : list (res result)) :
  (count_as AsSucceeded futures + count_as AsSkipped futures
   + count_as AsFailed futures = Z.of_nat (length futures))%Z.
Proof.
  induction futures as [|f futures IH]; [reflexivity|].
  rewrite !count_as_cons. cbn [length].
  destruct (classify f); cbn [counter_eqb]; lia.
Qed.

Lemma count_as_permutation (c : counter) (l1 l2 : list (res result)) :
  Permutation l1 l2 -> count_as c l1 = count_as c l2.
Proof.
  induction 1 as [|f l1 l2 _ IH|f g l|l1 l2 l3 _ IH1 _ IH2].
  - reflexivity.
  - rewrite !count_as_cons, IH. reflexivity.
  - rewrite !count_as_cons. lia.
  - congruence.
Qed.

Lemma tally_counts (futures : list (res result)) (rep : report) :
  let rep' := fold_left tally futures rep in
  total rep' = total rep /\
  succeeded rep' = (succeeded rep + count_as AsSucceeded futures)%Z /\
  skipped rep' = (skipped rep + count_as AsSkipped futures)%Z /\
  failed rep' = (failed rep + count_as AsFailed futures)%Z.
Proof.
  revert rep. induction futures as [|f futures IH]; intros rep; cbn [fold_left].
  - unfold count_as. cbn. repeat split; lia.
  - destruct (IH (tally rep f)) as [Ht [Hs [Hk Hf]]]. cbv zeta.
    rewrite Ht, Hs, Hk, Hf, !count_as_cons. clear.
    unfold tally, classify. destruct f as [r|ex].
    + destruct (success r); [|destruct (is_skip_reason (reason r))];
        cbn [total succeeded skipped failed counter_eqb]; repeat split; lia.
    + cbn [total succeeded skipped failed counter_eqb]. repeat split; lia.
Qed.

Lemma process_file_returns (bytes : Type) (py : builtins) (e : env bytes)
      (file : file_tuple) (mode : str) :
  exists r, run_worker py e mode file = Ok r.
Proof.
  destruct file as [[root filename] path_parts].
  unfold run_worker, process_file, try_except.
  destruct (process_file_try py e (root, filename, path_parts) mode [])
    as [[r|[]] l]; eexists; reflexivity.
Qed.

(** C8. Every completed future adds one to exactly one of the three counters
    (a future that raised adds one to [failed], and the loop goes on), so
    [succeeded + skipped + failed] is the number of futures. For a batch over
    a non-empty work set, completed in any order, the report therefore has
    [succeeded + skipped + failed = total], each submitted file counted once.
    A batch of 100 files of which 10 exist already, 5 fail to upload and 85
    succeed reports 85, 10, 5 and 100. *)
Theorem batch_report_counters :
  (forall (total_files : Z) (futures : list (res result)),
     let rep := aggregate total_files futures in
     succeeded rep = count_as AsSucceeded futures /\
     skipped rep = count_as AsSkipped futures /\
     failed rep = count_as AsFailed futures /\
     (succeeded rep + skipped rep + failed rep = Z.of_nat (length futures))%Z)
  /\
  (forall (bytes : Type) (py : builtins) (e : env bytes) (mode : str)
          (all_files completed : list file_tuple),
     Permutation all_files completed ->
     all_files <> [] ->
     exists rep,
       migrate_with_mode py e mode all_files completed = Some rep /\
       total rep = Z.of_nat (length all_files) /\
       (succeeded rep + skipped rep + failed rep = total rep)%Z /\
       succeeded rep = count_as AsSucceeded (map (run_worker py e mode) all_files) /\
       skipped rep = count_as AsSkipped (map (run_worker py e mode) all_files) /\
       failed rep = count_as AsFailed (map (run_worker py e mode) all_files))
  /\
  (exists rep,
     migrate_with_mode ascii_builtins sample_env (lit "notes_no_ocr")
                       sample_files (rev sample_files) = Some rep /\
     (total rep, succeeded rep, skipped rep, failed rep) = (100, 85, 10, 5)%Z).
Proof.
  assert (forall (total_files : Z) (futures : list (res result)),
     let rep := aggregate total_files futures in
     total rep = total_files /\
     succeeded rep = count_as AsSucceeded futures /\
     skipped rep = count_as AsSkipped futures /\
     failed rep = count_as AsFailed futures) as Hagg.
  { intros total_files futures. unfold aggregate.
    destruct (tally_counts futures
                {| total := total_files; succeeded := 0; skipped := 0;
                   failed := 0; failed_files := [] |}) as [Ht [Hs [Hk Hf]]].
    cbn in *. repeat split; assumption. }
  split; [|split].
  - intros total_files futures. destruct (Hagg total_files futures)
      as [_ [Hs [Hk Hf]]]. cbv zeta in *. rewrite Hs, Hk, Hf.
    repeat split. apply count_as_total.
  - intros bytes py e mode all_files completed Hperm Hne.
    unfold migrate_with_mode.
    destruct all_files as [|f rest]; [contradiction|].
    set (all_files := f :: rest) in *.
    eexists. split; [reflexivity|].
    destruct (Hagg (Z.of_nat (length all_files))
                   (map (run_worker py e mode) completed))
      as [Ht [Hs [Hk Hf]]]. cbv zeta in *.
    pose proof (Permutation_map (run_worker py e mode) Hperm) as Hmap.
    rewrite Ht, Hs, Hk, Hf.
    rewrite <- !(count_as_permutation _ Hmap).
    repeat split. rewrite count_as_total, length_map. reflexivity.
  - eexists. split; [reflexivity|]. vm_compute. reflexivity.
Qed.

Lemma batch_report_counters_witness :
  exists rep,
    migrate_with_mode ascii_builtins sample_env (lit "notes_no_ocr")
                      (map sample_file (seq 0 12)) (rev (map sample_file (seq 0 12)))
      = Some rep /\
    total rep = Z.of_nat (length (map sample_file (seq 0 12))) /\
    (succeeded rep + skipped rep + failed rep = total rep)%Z /\
    succeeded rep = count_as AsSucceeded
      (map (run_worker ascii_builtins sample_env (lit "notes_no_ocr"))
           (map sample_file (seq 0 12))) /\
    skipped rep = count_as AsSkipped
      (map (run_worker ascii_builtins sample_env (lit "notes_no_ocr"))
           (map sample_file (seq 0 12))) /\
    failed rep = count_as AsFailed
      (map (run_worker ascii_builtins sample_env (lit "notes_no_ocr"))
           (map sample_file (seq 0 12))).
Proof.
  apply (proj1 (proj2 batch_report_counters) Z ascii_builtins sample_env
           (lit "notes_no_ocr") (map sample_file (seq 0 12))
           (rev (map sample_file (seq 0 12)))).
  - apply Permutation_rev.
  - discriminate.
Defined.

(* ===================================================================== *)
(** * Further properties of the text normalizer *)
(* ===================================================================== *)

Lemma join_cons_length (sep w : str) (ws : list str) :
  (length (join sep (w :: ws)) <= length w + length sep + length (join sep ws))%nat.
Proof.
  cbn [join]. destruct ws as [|w2 ws]; [cbn; lia|].
  rewrite !length_app. lia.
Qed.

Lemma join_split_from_length (s cur : str) :
  (length (join [SPACE] (split_from cur s)) <= length cur + length s)%nat.
Proof.
  revert cur. induction s as [|c s IH]; intros cur; cbn [split_from].
  - destruct cur; cbn; lia.
  - destruct (is_space c).
    + destruct cur as [|a cur].
      * specialize (IH []). cbn [length] in *. lia.
      * pose proof (join_cons_length [SPACE] (a :: cur) (split_from [] s)) as J.
        specialize (IH []). cbn [length] in *. lia.
    + specialize (IH (cur ++ [c])). rewrite length_app in IH.
      cbn [length] in *. lia.
Qed.

Lemma filter_length_le {A : Type} (p : A -> bool) (l : list A) :
  (length (filter p l) <= length l)%nat.
Proof.
  induction l as [|x l IH]; [reflexivity|].
  cbn [filter]. destruct (p x); cbn [length]; lia.
Qed.

(** X1. A text returned by the normalizer has at least 10 characters, has no
    leading or trailing whitespace, is left unchanged by splitting on
    whitespace and joining with single spaces, and holds no character below
    code point 32 (so no tab, newline or carriage return either). *)
Theorem clean_ocr_text_output_shape (x : option str) (t : str) :
  clean_ocr_text x = Some t ->
  (OCR_TEXT_MIN_LENGTH <= len t)%Z /\
  strip t = t /\
  join [SPACE] (split t) = t /\
  Forall (fun c => (32 <= c)%N) t.
Proof.
  intros H. destruct (clean_ocr_text_single_spaced H) as [Hss [Hlen Hkeep]].
  split; [assumption|]. split; [apply strip_single_spaced; assumption|].
  destruct Hss as [ws [Hws ->]]. split; [rewrite (split_join Hws); reflexivity|].
  assert (Forall (fun c => nonspace c \/ c = SPACE) (join [SPACE] ws)) as Hns.
  { apply join_chars; [right; reflexivity|].
    eapply Forall_impl; [|exact Hws]. intros w [_ Hw].
    eapply Forall_impl; [|exact Hw]. intros c Hc. left. exact Hc. }
  rewrite Forall_forall in *. intros c Hc.
  specialize (Hkeep c Hc). specialize (Hns c Hc).
  unfold keep_char, LF, TAB, CR in Hkeep.
  destruct Hns as [Hn| ->]; [|discriminate].
  destruct (N.leb_spec 32 c) as [Hle|Hlt]; [exact Hle|].
  cbn [orb] in Hkeep.
  unfold nonspace in Hn.
  destruct (N.eqb_spec c 10) as [E|_]; [rewrite E in Hn; discriminate Hn|].
  destruct (N.eqb_spec c 9) as [E|_]; [rewrite E in Hn; discriminate Hn|].
  destruct (N.eqb_spec c 13) as [E|_]; [rewrite E in Hn; discriminate Hn|].
  discriminate Hkeep.
Qed.

Lemma clean_ocr_text_output_shape_witness :
  (OCR_TEXT_MIN_LENGTH <= len (lit "Hello brave new world"))%Z /\
  strip (lit "Hello brave new world") = lit "Hello brave new world" /\
  join [SPACE] (split (lit "Hello brave new world")) = lit "Hello brave new world" /\
  Forall (fun c => (32 <= c)%N) (lit "Hello brave new world").
Proof.
  apply (@clean_ocr_text_output_shape
           (Some ([TAB] ++ lit "Hello   brave new" ++ [LF; LF; LF] ++ lit "world  "))).
  reflexivity.
Defined.

(** X2. Normalizing never makes a text longer; a raw text of fewer than 10
    characters is therefore always rejected ([None]). *)
Theorem clean_ocr_text_never_longer (raw : str) :
  (forall t, clean_ocr_text (Some raw) = Some t -> (length t <= length raw)%nat)
  /\ ((len raw < OCR_TEXT_MIN_LENGTH)%Z -> clean_ocr_text (Some raw) = None).
Proof.
  assert (forall t, clean_ocr_text (Some raw) = Some t ->
                    (length t <= length raw)%nat) as Hle.
  { intros t H.
    assert (raw <> []) as Hne by (intros ->; discriminate H).
    rewrite clean_ocr_text_normal_form in H by assumption. cbv zeta in H.
    pose proof (join_split_from_length (filter keep_char raw) []) as J.
    pose proof (filter_length_le keep_char raw) as F.
    fold (split (filter keep_char raw)) in J.
    destruct (OCR_TEXT_MIN_LENGTH <=? _)%Z; [|discriminate].
    assert (t = join [SPACE] (split (filter keep_char raw))) as -> by congruence.
    cbn [length] in J. lia. }
  split; [exact Hle|].
  intros Hshort. destruct (clean_ocr_text (Some raw)) as [t|] eqn:E; [|reflexivity].
  exfalso. pose proof (Hle t eq_refl) as L.
  apply clean_ocr_text_single_spaced in E. destruct E as [_ [Hlen _]].
  unfold len, OCR_TEXT_MIN_LENGTH in *. lia.
Qed.

Lemma clean_ocr_text_never_longer_witness :
  (length (lit "Hello brave new world") <=
   length (lit "  Hello   brave new world  "))%nat /\
  clean_ocr_text (Some (lit "too short")) = None.
Proof.
  split.
  - apply (proj1 (clean_ocr_text_never_longer (lit "  Hello   brave new world  "))).
    reflexivity.
  - apply (proj2 (clean_ocr_text_never_longer (lit "too short"))).
    vm_compute. reflexivity.
Defined.

(* ===================================================================== *)
(** * Further properties of the retry executor *)
(* ===================================================================== *)

Section RetryOutcome.

Variable A : Type.
Variable answers : nat -> res A.
Variable backoff : Q.
Variable allowed : exn -> bool.
Variable swallow : bool.

(** The event every call of the operation leaves in the log. *)
Variable ev : event.

(** What a retry loop does from call number [k] on when [retries_left]
    retries remain: its outcome and the events it adds. *)
Fixpoint retry_outcome (retries_left : nat) (k : nat) (delay : Q)
  : res (option A) * log :=
  match answers k with
  | Ok a => (Ok (Some a), [ev])
  | Raise ex =>
      if allowed ex
      then match retries_left with
           | O => ((if swallow then Ok None else Raise ex), [ev])
           | S r =>
               let '(out, t) := retry_outcome r (S k) (delay * backoff) in
               (out, ev :: EvSleep delay :: t)
           end
      else (Raise ex, [ev])
  end.

Variable func : M A.
Variable cnt : log -> nat.
Variable max_retries : Z.

Hypothesis func_answers : forall l, func l = (answers (cnt l), l ++ [ev]).
Hypothesis cnt_call : forall l, cnt (l ++ [ev]) = S (cnt l).
Hypothesis cnt_sleep : forall l d, cnt (l ++ [EvSleep d]) = cnt l.

Lemma retry_from_outcome (n : nat) :
  forall (attempt : Z) (delay : Q) (l : log),
    Z.to_nat (max_retries - attempt) = n ->
    retry_from func max_retries backoff allowed swallow attempt delay l =
    (fst (retry_outcome n (cnt l) delay),
     l ++ snd (retry_outcome n (cnt l) delay)).
Proof.
  induction n as [|n IH]; intros attempt delay l Hn;
    rewrite retry_from_step, func_answers; cbn [retry_outcome];
    destruct (answers (cnt l)) as [a|ex]; try reflexivity;
    destruct (allowed ex); try reflexivity.
  - replace (attempt + 1 >? max_retries)%Z with true by lia. reflexivity.
  - replace (attempt + 1 >? max_retries)%Z with false by lia.
    rewrite (IH (attempt + 1)%Z) by lia.
    rewrite cnt_sleep, cnt_call.
    destruct (retry_outcome n (S (cnt l)) (delay * backoff)) as [out t].
    cbn [fst snd]. rewrite <- !app_assoc. reflexivity.
Qed.

End RetryOutcome.

Lemma scripted_answers {A : Type} (answers : nat -> res A) (l : log) :
  scripted answers l = (answers (count_calls l), l ++ [EvCall]).
Proof. reflexivity. Qed.

Lemma count_calls_call (l : log) : count_calls (l ++ [EvCall]) = S (count_calls l).
Proof. rewrite count_calls_app. cbn. lia. Qed.

Lemma count_calls_sleep (l : log) (d : Q) :
  count_calls (l ++ [EvSleep d]) = count_calls l.
Proof. rewrite count_calls_app. cbn. lia. Qed.

Lemma retry_loop_scripted {A : Type} (answers : nat -> res A) (max_retries : Z)
      (backoff : Q) (allowed : exn -> bool) (swallow : bool) (delay : Q) :
  retry_loop (scripted answers) max_retries backoff allowed swallow delay [] =
  retry_outcome answers backoff allowed swallow EvCall
                (Z.to_nat max_retries) 0 delay.
Proof.
  unfold retry_loop.
  rewrite (@retry_from_outcome A answers backoff allowed swallow EvCall
             (scripted answers) count_calls max_retries
             (scripted_answers answers) count_calls_call count_calls_sleep
             (Z.to_nat max_retries) 0%Z delay []) by (f_equal; lia).
  cbn [app count_calls filter length].
  destruct (retry_outcome _ _ _ _ _ _ _ _) as [out t]. reflexivity.
Qed.

Lemma retry_outcome_success {A : Type} (answers : nat -> res A) (backoff : Q)
      (allowed : exn -> bool) (swallow : bool) (a : A) (k : nat) :
  forall (r first : nat) (delay : Q),
    (k <= r)%nat ->
    (forall i, (i < k)%nat ->
       exists ex, answers (first + i)%nat = Raise ex /\ allowed ex = true) ->
    answers (first + k)%nat = Ok a ->
    retry_outcome answers backoff allowed swallow EvCall r first delay =
    (Ok (Some a), exhausted_trace delay backoff k).
Proof.
  induction k as [|k IH]; intros r first delay Hr Hfail Hok.
  - rewrite Nat.add_0_r in Hok. destruct r; cbn [retry_outcome exhausted_trace];
      rewrite Hok; reflexivity.
  - destruct r as [|r]; [lia|].
    destruct (Hfail O ltac:(lia)) as [ex [Hex Hal]].
    rewrite Nat.add_0_r in Hex.
    cbn [retry_outcome exhausted_trace]. rewrite Hex, Hal.
    rewrite (IH r (S first) (delay * backoff)); [reflexivity|lia| |].
    + intros i Hi. destruct (Hfail (S i) ltac:(lia)) as [ex' H'].
      exists ex'. rewrite <- Nat.add_succ_comm in H'. exact H'.
    + rewrite <- Nat.add_succ_comm in Hok. exact Hok.
Qed.


(** Two timeouts, then success. *)
Definition recovers_on_third : nat -> res Z :=
  fun k => if (k <? 2)%nat then Raise (OtherError (lit "timeout")) else Ok 7%Z.


Lemma retry_outcome_bounds {A : Type} (answers : nat -> res A) (backoff : Q)
      (allowed : exn -> bool) (swallow : bool) :
  forall (r k : nat) (delay : Q),
    let t := snd (retry_outcome answers backoff allowed swallow EvCall r k delay) in
    (1 <= count_calls t <= S r)%nat /\
    S (length (sleeps t)) = count_calls t.
Proof.
  induction r as [|r IH]; intros k delay; cbn [retry_outcome];
    destruct (answers k) as [a|ex]; try (cbn; lia);
    destruct (allowed ex); try (cbn; lia).
  specialize (IH (S k) (delay * backoff)).
  destruct (retry_outcome answers backoff allowed swallow EvCall r (S k)
                          (delay * backoff)) as [out t].
  cbn [snd] in *. cbv zeta in *.
  change (count_calls (EvCall :: EvSleep delay :: t)) with (S (count_calls t)).
  cbn [sleeps length]. lia.
Qed.


(* ===================================================================== *)
(** * Further properties of the adaptive chunker *)
(* ===================================================================== *)

(** A property of the loop state that every run of the body keeps holds
    when the loop ends. *)
Lemma while_pages_invariant (total_pages : Z)
      (body : loop_state -> res loop_state)
      (body_step : forall st st', (page_idx st < total_pages)%Z ->
         (CHUNK_MIN_PAGES <= chunk_pages st)%Z -> body st = Ok st' ->
         shrinks st st' \/ advances total_pages st st')
      (P : loop_state -> Prop) :
  (forall st st', (page_idx st < total_pages)%Z ->
     (CHUNK_MIN_PAGES <= chunk_pages st)%Z -> P st -> body st = Ok st' -> P st') ->
  forall (st : loop_state) (Hmin : (CHUNK_MIN_PAGES <= chunk_pages st)%Z)
         (st' : loop_state),
    P st -> while_pages total_pages body body_step st Hmin = Ok st' -> P st'.
Proof.
  intros Hkeep st Hmin.
  funelim (while_pages total_pages body body_step st Hmin); intros st1 HP Hrun.
  - injection Hrun as <-. assumption.
  - match goal with IH : forall _ : loop_state -> Prop, _ |- _ =>
      apply (IH P Hkeep st1); [|exact Hrun] end.
    eapply Hkeep; [apply Z.ltb_lt; eassumption|eassumption|exact HP|eassumption].
  - discriminate.
Qed.

Lemma chained_length (rs : list page_range) (a b : Z) :
  chained a rs b -> (Z.of_nat (length rs) <= b - a)%Z.
Proof.
  revert a. induction rs as [|r rs IH]; intros a; cbn [chained length].
  - lia.
  - intros [H1 [H2 H3]]. apply IH in H3. lia.
Qed.

Section ChunkInvariants.

Variable bytes : Type.
Variable bytes_len : bytes -> Z.
Variable extract_text : bytes -> str -> str -> res (option str).
Variable pdf : pdf_reader bytes.
Variable filename : str.
Variable start_chunk_pages : Z.

(** What the loop has established about a range it left behind. *)
Definition range_fits (r : page_range) : Prop :=
  match how r with
  | Processed =>
      exists buf, write_pages pdf (first_page r) (end_page r) = Ok buf /\
                  (bytes_len buf <= SYNC_LIMIT)%Z
  | SkippedOverLimit =>
      end_page r = (first_page r + 1)%Z /\
      exists buf, write_pages pdf (first_page r) (end_page r) = Ok buf /\
                  (SYNC_LIMIT < bytes_len buf)%Z
  | Dropped =>
      (exists ex, write_pages pdf (first_page r) (end_page r) = Raise ex) \/
      (exists buf ex, write_pages pdf (first_page r) (end_page r) = Ok buf /\
                      extract_text buf APPLICATION_PDF filename = Raise ex)
  end.

Definition window_max : Z := Z.max start_chunk_pages CHUNK_MIN_PAGES.

Definition range_short (r : page_range) : Prop :=
  (end_page r - first_page r <= window_max)%Z.

Definition loop_invariant (st : loop_state) : Prop :=
  Forall range_fits (emitted st) /\
  Forall range_short (emitted st) /\
  (chunk_pages st <= window_max)%Z.

Lemma loop_body_keeps (st st' : loop_state) :
  (page_idx st < page_count pdf)%Z ->
  (CHUNK_MIN_PAGES <= chunk_pages st)%Z ->
  loop_invariant st ->
  loop_body bytes_len extract_text pdf filename start_chunk_pages st = Ok st' ->
  loop_invariant st'.
Proof.
  intros Hlt Hmin [Hfit [Hshort Hwin]].
  unfold loop_body, try_chunk, window_max, CHUNK_MIN_PAGES in *.
  set (e := Z.min (page_idx st + chunk_pages st) (page_count pdf)).
  assert (page_idx st < e <= page_idx st + chunk_pages st)%Z as He
    by (subst e; lia).
  assert (forall d cp g, range_fits
            {| how := d; first_page := page_idx st; end_page := e |} ->
            (cp <= Z.max start_chunk_pages 1)%Z ->
            loop_invariant (moved_on st d e cp g)) as Hmove.
  { intros d cp g Hr Hcp. unfold loop_invariant, moved_on. cbn [emitted chunk_pages].
    split; [apply Forall_app; split; [assumption|constructor; [assumption|constructor]]|].
    split; [|exact Hcp].
    apply Forall_app. split; [assumption|]. constructor; [|constructor].
    unfold range_short, window_max, CHUNK_MIN_PAGES. cbn [first_page end_page]. lia. }
  destruct (write_pages pdf (page_idx st) e) as [buf|err] eqn:Hw;
    cbn [rbind rcatch].
  - destruct ((bytes_len buf >? SYNC_LIMIT)%Z && (chunk_pages st >? 1)%Z) eqn:E1;
      cbn [rcatch].
    + intros [= <-]. unfold loop_invariant. cbn [emitted chunk_pages].
      split; [assumption|]. split; [assumption|].
      apply andb_prop in E1. destruct E1 as [_ E1]. apply Z.gtb_lt in E1.
      pose proof (Z.mul_div_le (chunk_pages st) 2 ltac:(lia)).
      unfold window_max, CHUNK_MIN_PAGES. lia.
    + destruct ((bytes_len buf >? SYNC_LIMIT)%Z && (chunk_pages st =? 1)%Z) eqn:E2;
        cbn [rcatch].
      * intros [= <-]. apply Hmove; [|assumption].
        apply andb_prop in E2. destruct E2 as [E2 E3].
        apply Z.gtb_lt in E2. apply Z.eqb_eq in E3.
        unfold range_fits. cbn [how first_page end_page].
        split; [subst e; lia|]. exists buf. split; assumption.
      * destruct (extract_text buf APPLICATION_PDF filename) as [text|err] eqn:Hx;
          cbn [rbind rcatch].
        -- intros [= <-]. apply Hmove.
           ++ unfold range_fits. cbn [how first_page end_page].
              exists buf. split; [assumption|].
              destruct (Z.gtb_spec (bytes_len buf) SYNC_LIMIT) as [Hgt|Hle];
                [|exact Hle].
              cbn [andb] in E1, E2. apply Z.eqb_neq in E2.
              destruct (Z.gtb_spec (chunk_pages st) 1); [discriminate|lia].
           ++ destruct (chunk_pages st <? start_chunk_pages)%Z; lia.
        -- intros [= <-]. apply Hmove; [|assumption].
           unfold range_fits. cbn [how first_page end_page].
           right. exists buf, err. split; assumption.
  - intros [= <-]. apply Hmove; [|assumption].
    unfold range_fits. cbn [how first_page end_page]. left. exists err. exact Hw.
Qed.

Lemma chunk_loop_invariant :
  exists st,
    chunk_loop bytes_len extract_text pdf filename start_chunk_pages = Ok st /\
    loop_invariant st /\
    ((0 <= page_count pdf)%Z -> chained 0 (emitted st) (page_count pdf)).
Proof.
  unfold chunk_loop.
  destruct (@while_pages_returns (page_count pdf)
              (loop_body bytes_len extract_text pdf filename start_chunk_pages)
              (@loop_body_step _ bytes_len extract_text pdf filename
                               start_chunk_pages)
              (initial_state start_chunk_pages)
              (@initial_min start_chunk_pages)) as [st Hst].
  { intros st0 _. apply loop_body_returns. }
  exists st. split; [exact Hst|]. split.
  - eapply while_pages_invariant; [|  |exact Hst].
    + intros s s' H1 H2 H3 H4. eapply loop_body_keeps; eassumption.
    + unfold loop_invariant, initial_state, window_max. cbn [emitted chunk_pages].
      split; [constructor|]. split; [constructor|]. lia.
  - intros Htotal.
    eapply while_pages_chained; [| |exact Hst]; cbn; [reflexivity|assumption].
Qed.

End ChunkInvariants.

(** X5. In the migration script, every range sent to the OCR service
    serialized to at most [SYNC_LIMIT] bytes; every range skipped as over the
    limit is a single page whose serialization exceeds [SYNC_LIMIT]; and a
    range is dropped only when building or writing its chunk raised. *)
Theorem chunk_ranges_respect_limit (bytes : Type) (bytes_len : bytes -> Z)
        (the_client : option (vision_client bytes))
        (pdf : pdf_reader bytes) (filename : str) (start_chunk_pages : Z) :
  exists st,
    chunk_loop bytes_len (extract_text_sync the_client) pdf filename
               start_chunk_pages = Ok st /\
    forall r, In r (emitted st) ->
      match how r with
      | Processed =>
          exists buf, write_pages pdf (first_page r) (end_page r) = Ok buf /\
                      (bytes_len buf <= SYNC_LIMIT)%Z
      | SkippedOverLimit =>
          end_page r = (first_page r + 1)%Z /\
          exists buf, write_pages pdf (first_page r) (end_page r) = Ok buf /\
                      (SYNC_LIMIT < bytes_len buf)%Z
      | Dropped =>
          exists ex, write_pages pdf (first_page r) (end_page r) = Raise ex
      end.
Proof.
  destruct (@chunk_loop_invariant bytes bytes_len (extract_text_sync the_client)
              pdf filename start_chunk_pages) as [st [Hst [[Hfit _] _]]].
  exists st. split; [exact Hst|]. intros r Hr.
  rewrite Forall_forall in Hfit. specialize (Hfit r Hr).
  unfold range_fits in Hfit. destruct (how r); try exact Hfit.
  destruct Hfit as [H|[buf [ex [_ Hx]]]]; [exact H|].
  destruct (extract_text_sync_returns the_client buf APPLICATION_PDF filename)
    as [t Ht]. congruence.
Qed.

(** X6. No range the loop leaves behind has more pages than the starting
    window [max(start_chunk_pages, 1)], and for a PDF of [n >= 0] pages the
    loop leaves at most [n] ranges behind (so it sends at most [n] requests
    to the OCR service). *)
Theorem chunk_ranges_bounded (bytes : Type) (bytes_len : bytes -> Z)
        (the_client : option (vision_client bytes))
        (pdf : pdf_reader bytes) (filename : str) (start_chunk_pages : Z) :
  (0 <= page_count pdf)%Z ->
  exists st,
    chunk_loop bytes_len (extract_text_sync the_client) pdf filename
               start_chunk_pages = Ok st /\
    (forall r, In r (emitted st) ->
       (end_page r - first_page r <= Z.max start_chunk_pages CHUNK_MIN_PAGES)%Z) /\
    (Z.of_nat (length (emitted st)) <= page_count pdf)%Z.
Proof.
  intros Htotal.
  destruct (@chunk_loop_invariant bytes bytes_len (extract_text_sync the_client)
              pdf filename start_chunk_pages) as [st [Hst [[_ [Hshort _]] Hch]]].
  exists st. split; [exact Hst|]. split.
  - intros r Hr. rewrite Forall_forall in Hshort. exact (Hshort r Hr).
  - pose proof (chained_length (Hch Htotal)). lia.
Qed.

Lemma chunk_ranges_bounded_witness :
  exists st,
    chunk_loop (fun n => n) (extract_text_sync (Some silent_client)) ten_pages
               (lit "big.pdf") 5 = Ok st /\
    (forall r, In r (emitted st) ->
       (end_page r - first_page r <= Z.max 5 CHUNK_MIN_PAGES)%Z) /\
    (Z.of_nat (length (emitted st)) <= 10)%Z.
Proof.
  apply (@chunk_ranges_bounded Z (fun n => n) (Some silent_client) ten_pages
           (lit "big.pdf") 5).
  cbn. lia.
Defined.

(** X7. [dynamic_chunk_and_ocr_pdf] of the migration script raises in one
    case only: when [len(pdf_reader.pages)], which stands after the [try]
    around [PdfReader], raises; the function then raises that error. In
    every other case it returns: [None] when [PdfReader] raises and when the
    PDF has no page, and a text it returns is a normalized one, of at least
    10 characters and, although the chunks are gathered with blank lines
    between them, without a newline. *)
Theorem dynamic_chunk_and_ocr_pdf_result (bytes : Type) (bytes_len : bytes -> Z)
        (read_pdf : bytes -> res (pdf_document bytes))
        (the_client : option (vision_client bytes))
        (pdf_bytes : bytes) (filename : str) (start_chunk_pages : Z) :
  (forall ex, read_pdf pdf_bytes = Raise ex ->
     dynamic_chunk_and_ocr_pdf bytes_len read_pdf the_client pdf_bytes filename
                               start_chunk_pages = Ok None) /\
  (forall document ex,
     read_pdf pdf_bytes = Ok document -> read_pages document = Raise ex ->
     dynamic_chunk_and_ocr_pdf bytes_len read_pdf the_client pdf_bytes filename
                               start_chunk_pages = Raise ex) /\
  (forall document pdf,
     read_pdf pdf_bytes = Ok document -> read_pages document = Ok pdf ->
     exists r,
       dynamic_chunk_and_ocr_pdf bytes_len read_pdf the_client pdf_bytes filename
                                 start_chunk_pages = Ok r /\
       (page_count pdf = 0%Z -> r = None) /\
       (forall t, r = Some t -> (OCR_TEXT_MIN_LENGTH <= len t)%Z /\ ~ In LF t)).
Proof.
  unfold dynamic_chunk_and_ocr_pdf. split; [|split].
  - intros ex ->. reflexivity.
  - intros document ex -> ->. reflexivity.
  - intros document pdf -> ->. cbn [rbind].
    destruct (page_count pdf =? 0)%Z eqn:E.
    + exists None. repeat split; try discriminate; reflexivity.
    + destruct (@chunk_loop_invariant bytes bytes_len
                  (extract_text_sync the_client) pdf filename start_chunk_pages)
        as [st [Hst _]].
      rewrite Hst. cbn [rbind]. eexists. split; [reflexivity|]. split.
      * intros Hz. rewrite Hz in E. discriminate.
      * intros t Ht. destruct (gathered_text st) as [|c g]; [discriminate|].
        split.
        -- apply clean_ocr_text_single_spaced in Ht. tauto.
        -- apply (clean_ocr_text_no_newline Ht).
Qed.

(* ===================================================================== *)
(** * Further properties of the storage keys *)
(* ===================================================================== *)

Definition URL_PREFIX (bucket : str) : str :=
  lit "https://" ++ bucket ++ lit ".s3.amazonaws.com/".

(** X8. [build_file_url] raises [IndexError] for an empty [path_parts] and for
    nothing else; otherwise the URL is the bucket prefix followed by the key
    that [build_s3_key] derives, so the upload destination and the URL looked
    up in the record store name the same object. *)
Theorem build_file_url_is_prefixed_key (py : builtins) (bucket : str)
        (path_parts : list str) (filename : str) :
  (path_parts = [] ->
     build_file_url py bucket path_parts filename =
       Raise (IndexError (lit "list index out of range"))) /\
  (path_parts <> [] ->
     exists key,
       build_s3_key py path_parts filename = Ok key /\
       build_file_url py bucket path_parts filename = Ok (URL_PREFIX bucket ++ key)).
Proof.
  split.
  - intros ->. unfold build_file_url, build_s3_key.
    rewrite year_of_returns. reflexivity.
  - intros Hne. destruct path_parts as [|branch rest]; [contradiction|].
    unfold build_file_url, build_s3_key, URL_PREFIX.
    rewrite year_of_returns. cbn [rbind getitem nth_error].
    eexists. split; [reflexivity|]. rewrite <- !app_assoc. reflexivity.
Qed.

Lemma build_file_url_is_prefixed_key_witness :
  build_file_url ascii_builtins (lit "vault") [] (lit "a.pdf") =
    Raise (IndexError (lit "list index out of range")) /\
  exists key,
    build_s3_key ascii_builtins sample_parts (lit "a.pdf") = Ok key /\
    build_file_url ascii_builtins (lit "vault") sample_parts (lit "a.pdf") =
      Ok (URL_PREFIX (lit "vault") ++ key).
Proof.
  split.
  - apply (proj1 (build_file_url_is_prefixed_key ascii_builtins (lit "vault") []
                    (lit "a.pdf"))). reflexivity.
  - apply (proj2 (build_file_url_is_prefixed_key ascii_builtins (lit "vault")
                    sample_parts (lit "a.pdf"))). discriminate.
Defined.

(** X9. The key and the subject id depend on the period folder only through
    its digits: two period names with the same digits, when these make an
    integer, give the same storage key and the same subject id. *)
Theorem keys_depend_on_period_digits (py : builtins) (branch period1 period2 : str)
        (rest : list str) (filename : str) (n : Z) :
  filter (isdigit py) period1 = filter (isdigit py) period2 ->
  py_int py (filter (isdigit py) period1) = Some n ->
  build_s3_key py (branch :: period1 :: rest) filename =
    build_s3_key py (branch :: period2 :: rest) filename /\
  build_subject_id py (branch :: period1 :: rest) =
    build_subject_id py (branch :: period2 :: rest).
Proof.
  intros Hd Hn. unfold build_s3_key, build_subject_id.
  rewrite !year_of_returns. cbn [nth_error getitem rbind].
  rewrite <- Hd, Hn. rewrite !item_or_nth_error. cbn [nth_error].
  split; reflexivity.
Qed.

Lemma keys_depend_on_period_digits_witness :
  build_s3_key ascii_builtins [lit "CSE"; lit "Semester 3"; lit "Maths"] (lit "a.pdf") =
    build_s3_key ascii_builtins [lit "CSE"; lit "Year 3"; lit "Maths"] (lit "a.pdf") /\
  build_subject_id ascii_builtins [lit "CSE"; lit "Semester 3"; lit "Maths"] =
    build_subject_id ascii_builtins [lit "CSE"; lit "Year 3"; lit "Maths"].
Proof.
  apply (@keys_depend_on_period_digits ascii_builtins (lit "CSE")
           (lit "Semester 3") (lit "Year 3") [lit "Maths"] (lit "a.pdf") 3%Z);
    reflexivity.
Defined.

(* --------------------------------------------------------------------- *)
(** ** The older script's [build_file_url] *)

Module BackendKeys.

Section Keys.

Variable py : builtins.

(** [year_component] of the older script: its [except Exception] clause
    evaluates [path_parts[1]] again, without a guard. *)
Definition year_of (path_parts : list str) : res year_value :=
  rcatch
    (rbind (getitem path_parts 1) (fun period =>
       match py_int py (filter (isdigit py) period) with
       | Some n => Ok (YearInt n)
       | None => Raise (ValueError (lit "invalid literal for int()"))
       end))
    (fun _ => rbind (getitem path_parts 1) (fun period => Ok (YearStr period))).

Definition build_file_url (bucket : str) (path_parts : list str) (filename : str)
  : res str :=
  rbind (year_of path_parts) (fun year_component =>
  rbind (getitem path_parts 0) (fun branch =>
    let bucket_path := branch ++ SLASH ++ format_year year_component in
    rbind (getitem path_parts 2) (fun subject_name =>
    rbind (getitem path_parts 3) (fun resource_type =>
      Ok (lit "https://" ++ bucket ++ lit ".s3.amazonaws.com/" ++ bucket_path
            ++ SLASH ++ subject_name ++ SLASH ++ resource_type ++ SLASH
            ++ filename))))).

End Keys.

End BackendKeys.

(** X10. The older script's [build_file_url] has no defaults: it raises
    [IndexError] when [path_parts] has fewer than four elements. For four or
    more elements it returns the same URL as the migration script's. *)
Theorem old_build_file_url_agrees (py : builtins) (bucket : str)
        (path_parts : list str) (filename : str) :
  ((length path_parts < 4)%nat ->
     BackendKeys.build_file_url py bucket path_parts filename =
       Raise (IndexError (lit "list index out of range"))) /\
  ((4 <= length path_parts)%nat ->
     BackendKeys.build_file_url py bucket path_parts filename =
       build_file_url py bucket path_parts filename).
Proof.
  unfold BackendKeys.build_file_url, BackendKeys.year_of, build_file_url,
    build_s3_key.
  rewrite year_of_returns.
  destruct path_parts as [|a [|b [|c [|d rest]]]]; cbn [length]; split;
    intros Hlen; try lia; cbn [getitem nth_error rbind rcatch];
    try reflexivity.
  - destruct (py_int py (filter (isdigit py) b)); reflexivity.
  - destruct (py_int py (filter (isdigit py) b)); reflexivity.
  - rewrite !item_or_nth_error. cbn [nth_error].
    destruct (py_int py (filter (isdigit py) b)); cbn [rbind rcatch];
      rewrite <- !app_assoc; reflexivity.
Qed.

Lemma old_build_file_url_agrees_witness :
  BackendKeys.build_file_url ascii_builtins (lit "vault")
    [lit "CSE"; lit "Semester 3"; lit "Maths"] (lit "a.pdf") =
    Raise (IndexError (lit "list index out of range")) /\
  BackendKeys.build_file_url ascii_builtins (lit "vault") sample_parts (lit "a.pdf") =
    build_file_url ascii_builtins (lit "vault") sample_parts (lit "a.pdf").
Proof.
  split.
  - apply (proj1 (old_build_file_url_agrees ascii_builtins (lit "vault")
                    [lit "CSE"; lit "Semester 3"; lit "Maths"] (lit "a.pdf"))).
    cbn. lia.
  - apply (proj2 (old_build_file_url_agrees ascii_builtins (lit "vault")
                    sample_parts (lit "a.pdf"))).
    cbn. lia.
Defined.

(** A PDF that [PdfReader] opens and whose page tree it cannot read. *)
Definition encrypted_pdf : pdf_document Z :=
  {| read_pages := Raise (OtherError (lit "File has not been decrypted")) |}.

Lemma dynamic_chunk_and_ocr_pdf_result_witness :
  dynamic_chunk_and_ocr_pdf (fun n => n) (fun _ => Ok encrypted_pdf)
    (Some silent_client) 0%Z (lit "big.pdf") 5
    = Raise (OtherError (lit "File has not been decrypted")) /\
  exists r,
    dynamic_chunk_and_ocr_pdf (fun n => n)
      (fun _ => Ok {| read_pages := Ok ten_pages |})
      (Some silent_client) 0%Z (lit "big.pdf") 5 = Ok r /\
    (page_count ten_pages = 0%Z -> r = None) /\
    (forall t, r = Some t -> (OCR_TEXT_MIN_LENGTH <= len t)%Z /\ ~ In LF t).
Proof.
  split.
  - apply (proj1 (proj2 (@dynamic_chunk_and_ocr_pdf_result Z (fun n => n)
                           (fun _ => Ok encrypted_pdf) (Some silent_client) 0%Z
                           (lit "big.pdf") 5)) encrypted_pdf);
      reflexivity.
  - apply (proj2 (proj2 (@dynamic_chunk_and_ocr_pdf_result Z (fun n => n)
                           (fun _ => Ok {| read_pages := Ok ten_pages |})
                           (Some silent_client) 0%Z (lit "big.pdf") 5))
             {| read_pages := Ok ten_pages |} ten_pages);
      reflexivity.
Defined.

(* ===================================================================== *)
(** * Counting the calls a computation makes *)
(* ===================================================================== *)

(** How many events of the log satisfy [P]. *)
Definition count_of (P : event -> bool) (l : log) : nat := length (filter P l).

Lemma count_of_app (P : event -> bool) (l1 l2 : log) :
  count_of P (l1 ++ l2) = (count_of P l1 + count_of P l2)%nat.
Proof. unfold count_of. rewrite filter_app, length_app. reflexivity. Qed.

(** Running [m] adds at most [n] events that satisfy [P]. *)
Definition adds_at_most (P : event -> bool) (n : nat) {A : Type} (m : M A) : Prop :=
  forall l, (count_of P (snd (m l)) <= count_of P l + n)%nat.

Section AddsAtMost.

Variable P : event -> bool.

Lemma aam_weaken {A : Type} (n n' : nat) (m : M A) :
  (n <= n')%nat -> adds_at_most P n m -> adds_at_most P n' m.
Proof. intros Hn H l. specialize (H l). lia. Qed.

Lemma aam_ret {A : Type} (n : nat) (a : A) : adds_at_most P n (ret a).
Proof. intros l. unfold ret. cbn [snd]. lia. Qed.

Lemma aam_raise {A : Type} (n : nat) (ex : exn) : adds_at_most P n (@raise A ex).
Proof. intros l. unfold raise. cbn [snd]. lia. Qed.

Lemma aam_lift {A : Type} (n : nat) (r : res A) : adds_at_most P n (lift r).
Proof. intros l. unfold lift. cbn [snd]. lia. Qed.

Lemma aam_external {A : Type} (n : nat) (ev : event) (answer : res A) :
  P ev = false -> adds_at_most P n (external ev answer).
Proof.
  intros H l. unfold external. cbn [snd]. rewrite count_of_app.
  unfold count_of at 2. cbn [filter]. rewrite H. cbn [length]. lia.
Qed.

Lemma aam_external_1 {A : Type} (ev : event) (answer : res A) :
  adds_at_most P 1 (external ev answer).
Proof.
  intros l. unfold external. cbn [snd]. rewrite count_of_app.
  unfold count_of at 2. cbn [filter]. destruct (P ev); cbn [length]; lia.
Qed.

Lemma aam_bind {A B : Type} (a b : nat) (m : M A) (k : A -> M B) :
  adds_at_most P a m -> (forall x, adds_at_most P b (k x)) ->
  adds_at_most P (a + b) (bind m k).
Proof.
  intros Hm Hk l. unfold bind. specialize (Hm l).
  destruct (m l) as [[x|ex] l1]; cbn [snd] in *.
  - specialize (Hk x l1). lia.
  - lia.
Qed.

Lemma aam_bind_0 {A B : Type} (n : nat) (m : M A) (k : A -> M B) :
  adds_at_most P 0 m -> (forall x, adds_at_most P n (k x)) ->
  adds_at_most P n (bind m k).
Proof. intros Hm Hk. apply (aam_bind (a:=0) Hm Hk). Qed.

Lemma aam_bind_n {A B : Type} (n : nat) (m : M A) (k : A -> M B) :
  adds_at_most P n m -> (forall x, adds_at_most P 0 (k x)) ->
  adds_at_most P n (bind m k).
Proof.
  intros Hm Hk. eapply aam_weaken; [|apply (aam_bind Hm Hk)]. lia.
Qed.

Lemma aam_try_except {A : Type} (a b : nat) (m : M A) (h : exn -> M A) :
  adds_at_most P a m -> (forall ex, adds_at_most P b (h ex)) ->
  adds_at_most P (a + b) (try_except m h).
Proof.
  intros Hm Hh l. unfold try_except. specialize (Hm l).
  destruct (m l) as [[x|ex] l1]; cbn [snd] in *.
  - lia.
  - specialize (Hh ex l1). lia.
Qed.

Lemma aam_try_except_n {A : Type} (n : nat) (m : M A) (h : exn -> M A) :
  adds_at_most P n m -> (forall ex, adds_at_most P 0 (h ex)) ->
  adds_at_most P n (try_except m h).
Proof.
  intros Hm Hh. eapply aam_weaken; [|apply (aam_try_except Hm Hh)]. lia.
Qed.

Lemma aam_retry_from {A : Type} (c : nat) (func : M A) (max_retries : Z)
      (backoff : Q) (allowed : exn -> bool) (swallow : bool) :
  adds_at_most P c func ->
  (forall d, P (EvSleep d) = false) ->
  forall (n : nat) (attempt : Z) (delay : Q) (l : log),
    Z.to_nat (max_retries - attempt) = n ->
    (count_of P (snd (retry_from func max_retries backoff allowed swallow
                                 attempt delay l))
     <= count_of P l + c * S n)%nat.
Proof.
  intros Hf Hs. induction n as [|n IH]; intros attempt delay l Hn;
    rewrite retry_from_step; specialize (Hf l);
    destruct (func l) as [[a|ex] l1]; cbn [snd] in *; try lia;
    destruct (allowed ex); cbn [snd]; try lia.
  - replace (attempt + 1 >? max_retries)%Z with true by lia. cbn [snd]. lia.
  - replace (attempt + 1 >? max_retries)%Z with false by lia.
    specialize (IH (attempt + 1)%Z (delay * backoff) (l1 ++ [EvSleep delay])
                   ltac:(lia)).
    rewrite count_of_app in IH. unfold count_of at 3 in IH. cbn [filter] in IH.
    rewrite Hs in IH. cbn [length] in IH. lia.
Qed.

Lemma aam_retry_loop {A : Type} (c : nat) (func : M A) (max_retries : Z)
      (backoff : Q) (allowed : exn -> bool) (swallow : bool) (initial_delay : Q) :
  adds_at_most P c func ->
  (forall d, P (EvSleep d) = false) ->
  adds_at_most P (c * S (Z.to_nat max_retries))
               (retry_loop func max_retries backoff allowed swallow initial_delay).
Proof.
  intros Hf Hs l. unfold retry_loop.
  apply aam_retry_from; [assumption|assumption|f_equal; lia].
Qed.

End AddsAtMost.

(** Closes goals of the form [adds_at_most P n m] for straight-line code
    whose events do not satisfy [P]. *)
Ltac aam_silent :=
  repeat first
    [ apply aam_ret | apply aam_raise | apply aam_lift
    | apply aam_external; reflexivity
    | apply aam_bind_0 | apply aam_try_except_n
    | match goal with
      | |- adds_at_most _ _ (if ?b then _ else _) => destruct b
      end
    | intro ].

Definition is_subject_insert (ev : event) : bool :=
  match ev with EvInsertSubject _ => true | _ => false end.

Section CallBounds.

Variable bytes : Type.
Variable py : builtins.
Variable e : env bytes.

Lemma aam_s3_upload_file (P : event -> bool) (local_path bucket key : str) :
  (forall d, P (EvSleep d) = false) ->
  adds_at_most P (if P (EvUpload key) then 4 else 0)
               (s3_upload_file e local_path bucket key).
Proof.
  intros Hs. unfold s3_upload_file.
  destruct (negb (s3_client e)); [apply aam_raise|].
  destruct (DRY_RUN e); [apply aam_ret|].
  eapply aam_weaken;
    [|apply (@aam_retry_loop P unit (if P (EvUpload key) then 1 else 0)%nat
               (_upload e key) MAX_RETRIES); [|assumption]].
  - destruct (P (EvUpload key)); cbn; lia.
  - intros l. unfold _upload. cbn [snd]. rewrite count_of_app.
    unfold count_of at 2. cbn [filter]. destruct (P (EvUpload key)); cbn [length]; lia.
Qed.

Lemma aam_exists_checker (P : event -> bool) (n : nat) (mode url : str) :
  (forall u, P (EvSelectNote u) = false) ->
  (forall u, P (EvSelectBook u) = false) ->
  adds_at_most P n
    ((if negb (str_eqb mode MODE_BOOKS)
      then note_exists_in_db e else book_exists_in_db e) url).
Proof.
  intros Hn Hb.
  destruct (negb (str_eqb mode MODE_BOOKS));
    unfold note_exists_in_db, book_exists_in_db;
    (destruct (negb (supabase e)); [apply aam_ret|]);
    (apply aam_try_except_n; [apply aam_external; auto|intro; apply aam_ret]).
Qed.

Lemma aam_ocr_file (P : event -> bool) (n : nat) (file_path name : str)
      (file_size : Z) :
  P EvReadFile = false ->
  adds_at_most P n (ocr_file py e file_path name file_size).
Proof.
  intros Hr. unfold ocr_file.
  destruct (_ && _); (apply aam_bind_0; [apply aam_external; assumption|]);
    intro; apply aam_lift.
Qed.

Lemma aam_ensure_subject_record (P : event -> bool) (path_parts : list str) :
  (forall i, P (EvSelectSubject i) = false) ->
  adds_at_most P 1 (ensure_subject_record py e path_parts).
Proof.
  intros Hsel. unfold ensure_subject_record.
  destruct (negb (supabase e)); [apply aam_raise|].
  apply aam_bind_0; [apply aam_lift|]. intros subject_id.
  destruct (DRY_RUN e); [apply aam_ret|].
  apply aam_bind_0.
  { apply aam_try_except_n; [apply aam_external; apply Hsel|].
    intro. apply aam_ret. }
  intros found. destruct found; [apply aam_ret|].
  apply aam_bind_n; [|intro; apply aam_ret].
  apply aam_try_except_n; [apply aam_external_1|intro; apply aam_ret].
Qed.

Lemma aam_insert_record (P : event -> bool) (mode : str) (row : metadata) :
  adds_at_most P 1
    (if str_eqb mode MODE_BOOKS
     then insert_book_record e row else insert_note_record py e row).
Proof.
  destruct (str_eqb mode MODE_BOOKS);
    unfold insert_book_record, insert_note_record;
    (destruct (negb (supabase e)); [apply aam_raise|]);
    (destruct (DRY_RUN e); [apply aam_ret|]);
    (apply aam_try_except_n; [apply aam_external_1|]); intros ex.
  - apply aam_raise.
  - destruct (is_duplicate_error py (exn_str ex)); apply aam_raise.
Qed.

(** The part of [process_file_try] that follows the upload. *)
Lemma aam_after_upload (P : event -> bool) (a b : nat)
      (A : Type) (upload : M A) (rest : M result) :
  adds_at_most P a upload -> adds_at_most P b rest ->
  adds_at_most P (a + b) (upload ;;; rest).
Proof. intros Hu Hr. apply aam_bind; [assumption|intro; assumption]. Qed.

Lemma process_file_try_bounds (P : event -> bool) (a b c : nat)
      (file : file_tuple) (mode : str) :
  P EvGetSize = false -> P EvReadFile = false ->
  (forall d, P (EvSleep d) = false) ->
  (forall u, P (EvSelectNote u) = false) ->
  (forall u, P (EvSelectBook u) = false) ->
  (forall i, P (EvSelectSubject i) = false) ->
  (forall p b0 k, adds_at_most P a (s3_upload_file e p b0 k)) ->
  (forall parts, adds_at_most P b (ensure_subject_record py e parts)) ->
  (forall row, adds_at_most P c
     (if str_eqb mode MODE_BOOKS
      then insert_book_record e row else insert_note_record py e row)) ->
  adds_at_most P (a + (b + c)) (process_file_try py e file mode).
Proof.
  intros Hg Hr Hs Hn Hb Hsub Hup Hens Hins.
  destruct file as [[root filename] path_parts]. unfold process_file_try.
  apply aam_bind_0; [apply aam_external; assumption|]. intros file_size.
  apply aam_bind_0; [apply aam_lift|]. intros file_url.
  apply aam_bind_0; [apply aam_lift|]. intros s3_key.
  apply aam_bind_0; [apply aam_exists_checker; assumption|]. intros found.
  destruct found; [apply aam_ret|].
  apply aam_bind; [apply Hup|]. intros _.
  destruct (DRY_RUN e); [apply aam_ret|].
  apply aam_bind; [apply Hens|]. intros subject_id.
  apply aam_bind_0; [apply aam_lift|]. intros branch.
  apply aam_bind_0.
  { destruct (str_eqb mode MODE_NOTES_WITH_OCR).
    - apply aam_bind_0; [apply aam_ocr_file; assumption|]. intro. apply aam_ret.
    - destruct (str_eqb mode MODE_NOTES_NO_OCR); apply aam_ret. }
  intros row. apply aam_bind_n; [apply Hins|]. intro. apply aam_ret.
Qed.

Lemma process_file_bounds (P : event -> bool) (n : nat)
      (file : file_tuple) (mode : str) :
  adds_at_most P n (process_file_try py e file mode) ->
  adds_at_most P n (process_file py e file mode).
Proof.
  intros H. destruct file as [[root filename] path_parts]. unfold process_file.
  apply aam_try_except_n; [exact H|].
  intros ex. destruct ex; apply aam_ret.
Qed.

End CallBounds.

(** X11. Whatever the outside world answers, one run of [process_file] makes
    at most four upload attempts, at most one insert into [subjects] and at
    most one insert into [notes] or [books]. *)
Theorem process_file_call_bounds (bytes : Type) (py : builtins) (e : env bytes)
        (file : file_tuple) (mode : str) :
  let l := snd (process_file py e file mode []) in
  (count_of is_upload l <= 4)%nat /\
  (count_of is_subject_insert l <= 1)%nat /\
  (count_of is_insert l <= 1)%nat.
Proof.
  cbv zeta. split; [|split].
  - apply (@process_file_bounds bytes py e is_upload 4 file mode
             (@process_file_try_bounds bytes py e is_upload 4 0 0 file mode
                eq_refl eq_refl (fun _ => eq_refl) (fun _ => eq_refl)
                (fun _ => eq_refl) (fun _ => eq_refl)
                (fun p b k => @aam_s3_upload_file bytes e is_upload p b k
                                (fun _ => eq_refl))
                ltac:(intros parts; unfold ensure_subject_record; aam_silent)
                ltac:(intros row; unfold insert_book_record, insert_note_record;
                      aam_silent)) []).
  - apply (@process_file_bounds bytes py e is_subject_insert 1 file mode
             (@process_file_try_bounds bytes py e is_subject_insert 0 1 0 file mode
                eq_refl eq_refl (fun _ => eq_refl) (fun _ => eq_refl)
                (fun _ => eq_refl) (fun _ => eq_refl)
                (fun p b k => @aam_s3_upload_file bytes e _ p b k
                                (fun _ => eq_refl))
                (fun parts => @aam_ensure_subject_record bytes py e
                                is_subject_insert parts (fun _ => eq_refl))
                ltac:(intros row; unfold insert_book_record, insert_note_record;
                      aam_silent)) []).
  - apply (@process_file_bounds bytes py e is_insert 1 file mode
             (@process_file_try_bounds bytes py e is_insert 0 0 1 file mode
                eq_refl eq_refl (fun _ => eq_refl) (fun _ => eq_refl)
                (fun _ => eq_refl) (fun _ => eq_refl)
                (fun p b k => @aam_s3_upload_file bytes e _ p b k
                                (fun _ => eq_refl))
                ltac:(intros parts; unfold ensure_subject_record; aam_silent)
                (fun row => @aam_insert_record bytes py e is_insert mode row)) []).
Qed.

(** X12. In dry-run mode one run of [process_file] makes no call that writes
    to the object store or to the record store: no upload, no insert into
    [subjects], [notes] or [books]. *)
Theorem dry_run_never_writes (bytes : Type) (py : builtins) (e : env bytes)
        (file : file_tuple) (mode : str) :
  DRY_RUN e = true ->
  count_of is_write (snd (process_file py e file mode [])) = 0%nat.
Proof.
  intros Hdry.
  assert (adds_at_most is_write 0 (process_file py e file mode)) as H.
  { apply process_file_bounds.
    apply (@process_file_try_bounds bytes py e is_write 0 0 0 file mode
             eq_refl eq_refl (fun _ => eq_refl) (fun _ => eq_refl)
             (fun _ => eq_refl) (fun _ => eq_refl)).
    - intros p b k. unfold s3_upload_file. rewrite Hdry.
      destruct (negb (s3_client e)); [apply aam_raise|apply aam_ret].
    - intros parts. unfold ensure_subject_record. rewrite Hdry.
      destruct (negb (supabase e)); [apply aam_raise|].
      apply aam_bind_0; [apply aam_lift|]. intro. apply aam_ret.
    - intros row. unfold insert_book_record, insert_note_record. rewrite Hdry.
      destruct (str_eqb mode MODE_BOOKS);
        (destruct (negb (supabase e)); [apply aam_raise|apply aam_ret]). }
  specialize (H []). cbn in H. lia.
Qed.

(** The sample world in dry-run mode. *)
Definition dry_env : env Z :=
  {| S3_BUCKET_NAME := S3_BUCKET_NAME sample_env;
     DRY_RUN := true;
     supabase := supabase sample_env;
     s3_client := s3_client sample_env;
     vision := vision sample_env;
     bytes_len := bytes_len sample_env;
     getsize := getsize sample_env;
     read_file := read_file sample_env;
     read_pdf := read_pdf sample_env;
     notes_select := notes_select sample_env;
     books_select := books_select sample_env;
     upload_file := upload_file sample_env;
     subjects_select := subjects_select sample_env;
     subjects_insert := subjects_insert sample_env;
     notes_insert := notes_insert sample_env;
     books_insert := books_insert sample_env;
     uuid4 := uuid4 sample_env |}.

Lemma dry_run_never_writes_witness :
  count_of is_write
    (snd (process_file ascii_builtins dry_env (sample_file 20)
                       (lit "notes_no_ocr") [])) = 0%nat.
Proof.
  apply (@dry_run_never_writes Z ascii_builtins dry_env (sample_file 20)
           (lit "notes_no_ocr")).
  reflexivity.
Defined.

(* --------------------------------------------------------------------- *)
(** ** What a returned status says *)

(** Whenever [m] returns a status, the status and the log of the run satisfy
    [Q]. *)
Definition post (Q : result -> log -> Prop) (m : M result) : Prop :=
  forall l r, fst (m l) = Ok r -> Q r (snd (m l)).

Lemma post_ret (Q : result -> log -> Prop) (r : result) :
  (forall l, Q r l) -> post Q (ret r).
Proof. intros H l r' [= <-]. apply H. Qed.

Lemma post_bind {A : Type} (Q : result -> log -> Prop) (R : A -> Prop)
      (m : M A) (k : A -> M result) :
  (forall l a, fst (m l) = Ok a -> R a) ->
  (forall a, R a -> post Q (k a)) ->
  post Q (bind m k).
Proof.
  intros Hm Hk l r. unfold bind. specialize (Hm l).
  destruct (m l) as [[a|ex] l1]; cbn [fst snd] in *.
  - apply Hk. apply Hm. reflexivity.
  - discriminate.
Qed.

Lemma post_bind_any {A : Type} (Q : result -> log -> Prop)
      (m : M A) (k : A -> M result) :
  (forall a, post Q (k a)) -> post Q (bind m k).
Proof.
  intros Hk. apply (@post_bind A Q (fun _ => True)); [trivial|].
  intros a _. apply Hk.
Qed.

Section Statuses.

Variable bytes : Type.
Variable py : builtins.
Variable e : env bytes.
Variable root filename : str.
Variable path_parts : list str.
Variable mode : str.

(** The statuses [process_file] can return. *)
Definition well_formed_status (r : result) : Prop :=
  filename_of r = filename /\
  (length (reason r) <= 200)%nat /\
  (success r = true -> error_details r = None) /\
  (success r = true -> reason r = [] \/ reason r = lit "dry_run").

Lemma well_formed_try :
  post (fun r _ => well_formed_status r)
       (process_file_try py e (root, filename, path_parts) mode).
Proof.
  unfold process_file_try.
  do 4 (apply post_bind_any; intro).
  match goal with |- post _ (if ?b then _ else _) => destruct b end.
  { apply post_ret. intros _. unfold well_formed_status, status. cbn.
    repeat split; try discriminate; lia. }
  apply post_bind_any; intro.
  destruct (DRY_RUN e).
  { apply post_ret. intros _. unfold well_formed_status, status. cbn.
    repeat split; try lia. right. reflexivity. }
  do 4 (apply post_bind_any; intro).
  apply post_ret. intros _. unfold well_formed_status, status. cbn.
  repeat split; try lia. left. reflexivity.
Qed.

End Statuses.

(** X13. [process_file] never raises: whatever happens inside, it returns a
    status for the file it was given, whose reason has at most 200
    characters; a status reporting success carries no error details and has
    the reason [dry_run] or none. *)
Theorem process_file_always_returns_status (bytes : Type) (py : builtins)
        (e : env bytes) (root filename : str) (path_parts : list str)
        (mode : str) (l : log) :
  exists r,
    fst (process_file py e (root, filename, path_parts) mode l) = Ok r /\
    filename_of r = filename /\
    (length (reason r) <= 200)%nat /\
    (success r = true -> error_details r = None) /\
    (success r = true -> reason r = [] \/ reason r = lit "dry_run").
Proof.
  pose proof (@well_formed_try bytes py e root filename path_parts mode l) as Htry.
  unfold process_file, try_except.
  destruct (process_file_try py e (root, filename, path_parts) mode l)
    as [[r|ex] l1]; cbn [fst snd] in *.
  - exists r. split; [reflexivity|]. apply (Htry r eq_refl).
  - destruct ex; eexists; (split; [reflexivity|]); cbn [filename_of reason success
      error_details status]; unfold take;
      repeat split; try discriminate; try apply firstn_le_length;
      cbn; lia.
Qed.

Section SuccessMeansInserted.

Variable bytes : Type.
Variable py : builtins.
Variable e : env bytes.
Variable root filename : str.
Variable path_parts : list str.
Variable mode : str.

Hypothesis not_dry : DRY_RUN e = false.

(** The insert [process_file] makes in this mode, and the store's answer. *)
Definition insert_event (row : metadata) : event :=
  if str_eqb mode MODE_BOOKS then EvInsertBook row else EvInsertNote row.

Definition insert_answer (row : metadata) : res unit :=
  if str_eqb mode MODE_BOOKS then books_insert e row else notes_insert e row.

Definition row_accepted (r : result) (l : log) : Prop :=
  success r = true ->
  exists row,
    In (insert_event row) l /\
    insert_answer row = Ok tt /\
    md_file_name row = filename /\
    build_file_url py (S3_BUCKET_NAME e) path_parts filename = Ok (md_s3_url row).

Lemma row_accepted_try :
  post row_accepted (process_file_try py e (root, filename, path_parts) mode).
Proof.
  unfold process_file_try.
  apply post_bind_any; intros file_size.
  apply (@post_bind _ row_accepted
           (fun u => build_file_url py (S3_BUCKET_NAME e) path_parts filename = Ok u)).
  { intros l a H. exact H. }
  intros file_url Hurl.
  apply post_bind_any; intros s3_key.
  apply post_bind_any; intros found.
  destruct found; [apply post_ret; intros l Hs; discriminate Hs|].
  apply post_bind_any; intros _.
  rewrite not_dry.
  apply post_bind_any; intros subject_id.
  apply post_bind_any; intros branch.
  apply (@post_bind _ row_accepted
           (fun row => md_file_name row = filename /\ md_s3_url row = file_url)).
  { intros l row.
    destruct (str_eqb mode MODE_NOTES_WITH_OCR).
    - unfold bind.
      destruct (ocr_file py e (root ++ SLASH ++ filename) filename file_size l)
        as [[t|ex] l1]; cbn [fst ret]; [|discriminate].
      intros [= <-]. split; reflexivity.
    - destruct (str_eqb mode MODE_NOTES_NO_OCR); cbn [fst ret];
        intros [= <-]; split; reflexivity. }
  intros row [Hname Hrow] l r Hr Hs.
  exists row. unfold insert_event, insert_answer.
  rewrite Hname, Hrow. split; [|split; [|split; [reflexivity|exact Hurl]]];
    revert Hr; unfold bind, insert_book_record, insert_note_record, try_except,
      external, raise, ret; rewrite not_dry;
    destruct (str_eqb mode MODE_BOOKS);
    destruct (negb (supabase e)); cbn [fst snd]; try discriminate.
  - destruct (books_insert e row) as [[]|ex]; cbn [fst snd]; [|discriminate].
    intros _. apply in_or_app. right. left. reflexivity.
  - destruct (notes_insert e row) as [[]|ex]; cbn [fst snd].
    + intros _. apply in_or_app. right. left. reflexivity.
    + destruct (is_duplicate_error py (exn_str ex)); discriminate.
  - destruct (books_insert e row) as [[]|ex]; cbn [fst snd];
      [reflexivity|discriminate].
  - destruct (notes_insert e row) as [[]|ex]; cbn [fst snd]; [reflexivity|].
    destruct (is_duplicate_error py (exn_str ex)); discriminate.
Qed.

End SuccessMeansInserted.

(** X14. Outside dry-run mode, [process_file] reports success only after the
    record store accepted the insert of a row for this file: the log of the
    run holds that insert, the store answered it without error, and the row
    carries the file's name and the URL derived from its path. *)
Theorem success_means_row_accepted (bytes : Type) (py : builtins)
        (e : env bytes) (root filename : str) (path_parts : list str)
        (mode : str) (r : result) :
  DRY_RUN e = false ->
  fst (process_file py e (root, filename, path_parts) mode []) = Ok r ->
  success r = true ->
  exists row,
    In (if str_eqb mode MODE_BOOKS then EvInsertBook row else EvInsertNote row)
       (snd (process_file py e (root, filename, path_parts) mode [])) /\
    (if str_eqb mode MODE_BOOKS then books_insert e row else notes_insert e row)
      = Ok tt /\
    md_file_name row = filename /\
    build_file_url py (S3_BUCKET_NAME e) path_parts filename = Ok (md_s3_url row).
Proof.
  intros Hdry Hr Hs.
  pose proof (@row_accepted_try bytes py e root filename path_parts mode Hdry [])
    as Htry.
  unfold process_file, try_except in *.
  destruct (process_file_try py e (root, filename, path_parts) mode [])
    as [[r0|ex] l1]; cbn [fst snd] in *.
  - injection Hr as <-. exact (Htry r0 eq_refl Hs).
  - destruct ex; cbn in Hr; injection Hr as <-; discriminate Hs.
Qed.

Lemma success_means_row_accepted_witness :
  exists row,
    In (EvInsertNote row)
       (snd (process_file ascii_builtins sample_env (sample_file 20)
                          (lit "notes_no_ocr") [])) /\
    notes_insert sample_env row = Ok tt /\
    md_file_name row = lit "n20.pdf" /\
    build_file_url ascii_builtins (lit "vault") sample_parts (lit "n20.pdf")
      = Ok (md_s3_url row).
Proof.
  apply (@success_means_row_accepted Z ascii_builtins sample_env
           (lit "/data/CSE/Semester 3/Maths/Notes") (lit "n20.pdf") sample_parts
           (lit "notes_no_ocr") (status true [] (lit "n20.pdf")));
    vm_compute; reflexivity.
Defined.

(** X15. The subject upsert tolerates the record store: with a configured
    client, outside dry-run mode, [ensure_subject_record] returns the id
    derived from the path whatever the select and the insert answer. It
    always makes the select, and makes the insert unless the select found
    the row. *)
Theorem ensure_subject_record_tolerates_store (bytes : Type) (py : builtins)
        (e : env bytes) (path_parts : list str) (id : str) (l : log) :
  supabase e = true ->
  DRY_RUN e = false ->
  build_subject_id py path_parts = Ok id ->
  ensure_subject_record py e path_parts l =
    (Ok id,
     l ++ EvSelectSubject id ::
       match subjects_select e id with
       | Ok true => []
       | _ => [EvInsertSubject id]
       end).
Proof.
  intros Hdb Hdry Hid.
  unfold ensure_subject_record, bind, lift, try_except, external, ret.
  rewrite Hdb, Hdry, Hid. cbn [negb].
  destruct (subjects_select e id) as [[|]|ex]; cbn [app].
  - reflexivity.
  - destruct (subjects_insert e id); rewrite <- app_assoc; reflexivity.
  - destruct (subjects_insert e id); rewrite <- app_assoc; reflexivity.
Qed.

(** A record store that answers every call on [subjects] with an error. *)
Definition broken_subjects_env : env Z :=
  {| S3_BUCKET_NAME := S3_BUCKET_NAME sample_env;
     DRY_RUN := false;
     supabase := true;
     s3_client := s3_client sample_env;
     vision := vision sample_env;
     bytes_len := bytes_len sample_env;
     getsize := getsize sample_env;
     read_file := read_file sample_env;
     read_pdf := read_pdf sample_env;
     notes_select := notes_select sample_env;
     books_select := books_select sample_env;
     upload_file := upload_file sample_env;
     subjects_select := fun _ => Raise (OtherError (lit "502 Bad Gateway"));
     subjects_insert := fun _ => Raise (OtherError (lit "502 Bad Gateway"));
     notes_insert := notes_insert sample_env;
     books_insert := books_insert sample_env;
     uuid4 := uuid4 sample_env |}.

Lemma ensure_subject_record_tolerates_store_witness :
  ensure_subject_record ascii_builtins broken_subjects_env sample_parts [] =
    (Ok (lit "uuid5:CSE-3-Maths"),
     [EvSelectSubject (lit "uuid5:CSE-3-Maths");
      EvInsertSubject (lit "uuid5:CSE-3-Maths")]).
Proof.
  apply (@ensure_subject_record_tolerates_store Z ascii_builtins
           broken_subjects_env sample_parts (lit "uuid5:CSE-3-Maths") []);
    reflexivity.
Defined.

(** X16. The existence checks never raise and fail open: they answer [True]
    only when the client is configured and the select returned a row; a
    missing client or a failing select is answered [False], after which
    [process_file] treats the file as new. *)
Theorem existence_checks_fail_open (bytes : Type) (e : env bytes) (url : str)
        (l : log) :
  (exists b, fst (note_exists_in_db e url l) = Ok b /\
             (b = true <-> supabase e = true /\ notes_select e url = Ok true))
  /\
  (exists b, fst (book_exists_in_db e url l) = Ok b /\
             (b = true <-> supabase e = true /\ books_select e url = Ok true)).
Proof.
  unfold note_exists_in_db, book_exists_in_db, try_except, external, ret.
  split.
  - destruct (supabase e); cbn [negb].
    + destruct (notes_select e url) as [[|]|ex]; cbn [fst]; eexists;
        (split; [reflexivity|]); split; try tauto; try discriminate;
        intros [_ H]; discriminate H.
    + exists false. split; [reflexivity|]. split; [discriminate|].
      intros [H _]. discriminate H.
  - destruct (supabase e); cbn [negb].
    + destruct (books_select e url) as [[|]|ex]; cbn [fst]; eexists;
        (split; [reflexivity|]); split; try tauto; try discriminate;
        intros [_ H]; discriminate H.
    + exists false. split; [reflexivity|]. split; [discriminate|].
      intros [H _]. discriminate H.
Qed.

Lemma existence_checks_fail_open_witness :
  (exists b, fst (note_exists_in_db broken_subjects_env (sample_url 3) []) = Ok b /\
             (b = true <-> supabase broken_subjects_env = true /\
                           notes_select broken_subjects_env (sample_url 3) = Ok true))
  /\
  (exists b, fst (book_exists_in_db broken_subjects_env (sample_url 3) []) = Ok b /\
             (b = true <-> supabase broken_subjects_env = true /\
                           books_select broken_subjects_env (sample_url 3) = Ok true)).
Proof.
  exact (@existence_checks_fail_open Z broken_subjects_env (sample_url 3) []).
Defined.

Lemma str_eqb_refl (s : str) : str_eqb s s = true.
Proof. unfold str_eqb. destruct (list_eq_dec N.eq_dec s s); congruence. Qed.

Lemma count_uploads_upload (key : str) (l : log) :
  count_uploads key (l ++ [EvUpload key]) = S (count_uploads key l).
Proof.
  unfold count_uploads. rewrite filter_app, length_app. cbn [filter is_upload_of].
  rewrite str_eqb_refl. cbn. lia.
Qed.

Lemma count_uploads_sleep (key : str) (l : log) (d : Q) :
  count_uploads key (l ++ [EvSleep d]) = count_uploads key l.
Proof.
  unfold count_uploads. rewrite filter_app, length_app. cbn. lia.
Qed.

Definition is_duplicate_record (ex : exn) : bool :=
  match ex with DuplicateRecordError _ => true | _ => false end.

(** X17. When a new file reaches the upload and every upload attempt fails,
    [process_file] makes exactly four attempts, sleeping 1, 1.5 and 2.25
    seconds between them, makes no call to the record store after the
    existence check, and returns a failure whose details are the message of
    the last error and whose reason is its first 200 characters. *)
Theorem upload_exhausted_is_failure (bytes : Type) (py : builtins) (e : env bytes)
        (root filename : str) (path_parts : list str) (mode : str)
        (size : Z) (url key : str) (last : exn) :
  getsize e (root ++ SLASH ++ filename) = Ok size ->
  build_file_url py (S3_BUCKET_NAME e) path_parts filename = Ok url ->
  build_s3_key py path_parts filename = Ok key ->
  supabase e = true ->
  (if str_eqb mode MODE_BOOKS then books_select e url else notes_select e url)
    = Ok false ->
  s3_client e = true ->
  DRY_RUN e = false ->
  (forall k, exists ex, upload_file e key k = Raise ex) ->
  upload_file e key 3 = Raise last ->
  is_duplicate_record last = false ->
  process_file py e (root, filename, path_parts) mode [] =
    (Ok {| success := false;
           reason := take 200 (exn_str last);
           filename_of := filename;
           error_details := Some (exn_str last) |},
     [EvGetSize;
      if str_eqb mode MODE_BOOKS then EvSelectBook url else EvSelectNote url;
      EvUpload key; EvSleep 1;
      EvUpload key; EvSleep (1 * RETRY_BACKOFF_BASE);
      EvUpload key; EvSleep (1 * RETRY_BACKOFF_BASE * RETRY_BACKOFF_BASE);
      EvUpload key]).
Proof.
  intros Hsize Hurl Hkey Hdb Hsel Hs3 Hdry Hfail Hlast Hnd.
  destruct (Hfail 0%nat) as [ex0 H0]. destruct (Hfail 1%nat) as [ex1 H1].
  destruct (Hfail 2%nat) as [ex2 H2].
  assert (forall l, count_uploads key l = 0%nat ->
            s3_upload_file e (root ++ SLASH ++ filename) (S3_BUCKET_NAME e) key l =
            (Raise last,
             l ++ [EvUpload key; EvSleep 1;
                   EvUpload key; EvSleep (1 * RETRY_BACKOFF_BASE);
                   EvUpload key;
                   EvSleep (1 * RETRY_BACKOFF_BASE * RETRY_BACKOFF_BASE);
                   EvUpload key])) as Hup.
  { intros l Hl. unfold s3_upload_file, retry_loop. rewrite Hs3, Hdry. cbn [negb].
    rewrite (@retry_from_outcome unit (upload_file e key) RETRY_BACKOFF_BASE
               (fun _ => true) false (EvUpload key) (_upload e key)
               (count_uploads key) MAX_RETRIES
               (fun l0 => eq_refl) (count_uploads_upload key)
               (count_uploads_sleep key) 3%nat 0%Z 1 l eq_refl).
    rewrite Hl. cbn [retry_outcome]. rewrite H0, H1, H2, Hlast. reflexivity. }
  unfold process_file, process_file_try, try_except, bind, external, lift.
  cbn [app]. rewrite Hsize, Hurl, Hkey.
  unfold note_exists_in_db, book_exists_in_db, try_except, external, ret.
  rewrite Hdb. cbn [negb].
  destruct (str_eqb mode MODE_BOOKS); cbn [negb app]; rewrite Hsel;
    rewrite Hup by reflexivity; destruct last; try discriminate Hnd; reflexivity.
Qed.

Lemma upload_exhausted_is_failure_witness :
  process_file ascii_builtins sample_env (sample_file 12) (lit "notes_no_ocr") [] =
    (Ok {| success := false;
           reason := take 200 (lit "Connection timed out");
           filename_of := lit "n12.pdf";
           error_details := Some (lit "Connection timed out") |},
     [EvGetSize; EvSelectNote (sample_url 12);
      EvUpload (sample_key 12); EvSleep 1;
      EvUpload (sample_key 12); EvSleep (1 * RETRY_BACKOFF_BASE);
      EvUpload (sample_key 12);
      EvSleep (1 * RETRY_BACKOFF_BASE * RETRY_BACKOFF_BASE);
      EvUpload (sample_key 12)]).
Proof.
  apply (@upload_exhausted_is_failure Z ascii_builtins sample_env
           (lit "/data/CSE/Semester 3/Maths/Notes") (lit "n12.pdf") sample_parts
           (lit "notes_no_ocr") 2048%Z (sample_url 12) (sample_key 12)
           (OtherError (lit "Connection timed out")));
    try reflexivity.
  intros k. eexists. reflexivity.
Defined.

(* ===================================================================== *)
(** * Upload metadata and file collection *)
(* ===================================================================== *)

(** The dict returned by [get_s3_metadata]; [archive_type] and
    [display_mode] are the two entries of its ['Metadata']. *)
Record s3_metadata := {
  ContentType : str;
  ContentDisposition : str;
  CacheControl : str;
  archive_type : str;
  display_mode : str }.

Definition VALID_EXTENSIONS : list str :=
  [lit "png"; lit "jpg"; lit "jpeg"; lit "tiff"; lit "gif"; lit "pdf"].

Definition IMAGE_EXTENSIONS : list str :=
  [lit "jpg"; lit "jpeg"; lit "png"; lit "gif"; lit "webp"; lit "tiff"; lit "svg"].

(** [get_s3_metadata]; [guess_type filename] is
    [mimetypes.guess_type(filename)[0]]. *)
Definition get_s3_metadata (py : builtins) (guess_type : str -> option str)
           (filename : str) : s3_metadata :=
  let ext := extension py filename in
  let mime_type :=
    match guess_type filename with
    | Some (c :: m) => c :: m
    | _ => lit "application/octet-stream"
    end in
  if str_eqb ext (lit "pdf")
  then {| ContentType := lit "application/pdf";
          ContentDisposition := lit "inline";
          CacheControl := lit "public, max-age=2592000";
          archive_type := lit "document";
          display_mode := lit "inline" |}
  else if mem ext IMAGE_EXTENSIONS
  then {| ContentType := mime_type;
          ContentDisposition := lit "inline";
          CacheControl := lit "public, max-age=31536000";
          archive_type := lit "image";
          display_mode := lit "inline" |}
  else {| ContentType := mime_type;
          ContentDisposition := lit "attachment";
          CacheControl := lit "public, max-age=604800";
          archive_type := lit "file";
          display_mode := lit "download" |}.

(** [s.strip(c)] for a one-character set. *)
Fixpoint lstrip_char (c : char) (s : str) : str :=
  match s with
  | [] => []
  | a :: s' => if (a =? c)%N then lstrip_char c s' else s
  end.

Definition strip_char (c : char) (s : str) : str :=
  rev (lstrip_char c (rev (lstrip_char c s))).

(** [root.replace(BASE_PATH, "").strip(os.sep).split(os.sep)], for a
    non-empty [BASE_PATH]. *)
Definition path_parts_of (sep : char) (base_path root : str) : list str :=
  split_on sep (strip_char sep (replace base_path [] root)).

(** The body of the inner loop of [collect_files_from_path]: the tuple
    appended for [filename], if any. *)
Definition collect_file (py : builtins) (sep : char) (base_path : str)
           (exclude_books : bool) (root filename : str) : list file_tuple :=
  let path_parts := path_parts_of sep base_path root in
  match path_parts with
  | [] => []
  | _ =>
      if (length path_parts <? 3)%nat then []
      else if exclude_books && (3 <? length path_parts)%nat
              && str_eqb (nth 3 path_parts []) (lit "Books")
      then []
      else if negb (mem (extension py filename) VALID_EXTENSIONS) then []
      else [(root, filename, path_parts)]
  end.

(** [collect_files_from_path]; [isdir] is [os.path.isdir(BASE_PATH)] and
    [walk] lists [(root, files)] as [os.walk(BASE_PATH)] yields them. *)
Definition collect_files_from_path (py : builtins) (sep : char) (base_path : str)
           (isdir : bool) (walk : list (str * list str)) (exclude_books : bool)
  : list file_tuple :=
  if negb isdir then []
  else flat_map (fun entry =>
         flat_map (collect_file py sep base_path exclude_books (fst entry))
                  (snd entry)) walk.

Example collect_files_ex :
  collect_files_from_path ascii_builtins 47%N (lit "/data") true
    [(lit "/data", [lit "README.md"]);
     (lit "/data/CSE/Semester 3/Maths/Notes", [lit "a.PDF"; lit "b.docx"]);
     (lit "/data/CSE/Semester 3/Maths/Books", [lit "c.pdf"])] true
  = [(lit "/data/CSE/Semester 3/Maths/Notes", lit "a.PDF", sample_parts)].
Proof. vm_compute. reflexivity. Qed.

Lemma str_eqb_eq (a b : str) : str_eqb a b = true -> a = b.
Proof. unfold str_eqb. destruct (list_eq_dec N.eq_dec a b); [auto|discriminate]. Qed.

(** X18. Every file the collector returns sits at least three folders below
    the base path and has one of the six accepted extensions; with
    [exclude_books] its fourth folder is not [Books]. For such a file the
    URL derivation of [process_file] cannot raise, and the key uses the real
    subject folder, not the [unknown] fallback. *)
Theorem collected_files_are_well_formed (py : builtins) (sep : char)
        (base_path : str) (isdir : bool) (walk : list (str * list str))
        (exclude_books : bool) (bucket root filename : str)
        (path_parts : list str) :
  In (root, filename, path_parts)
     (collect_files_from_path py sep base_path isdir walk exclude_books) ->
  (3 <= length path_parts)%nat /\
  mem (extension py filename) VALID_EXTENSIONS = true /\
  (exclude_books = true -> nth_error path_parts 3 <> Some (lit "Books")) /\
  (exists key,
     build_s3_key py path_parts filename = Ok key /\
     build_file_url py bucket path_parts filename = Ok (URL_PREFIX bucket ++ key)) /\
  (exists subject, nth_error path_parts 2 = Some subject /\
                   item_or path_parts 2 UNKNOWN = subject).
Proof.
  unfold collect_files_from_path. destruct isdir; cbn [negb]; [|contradiction].
  intros Hin. apply in_flat_map in Hin. destruct Hin as [[root0 files] [_ Hin]].
  apply in_flat_map in Hin. destruct Hin as [name [_ Hin]].
  unfold collect_file in Hin. cbn [fst] in Hin.
  set (parts := path_parts_of sep base_path root0) in *.
  destruct parts as [|p0 rest] eqn:Hparts; [contradiction|].
  rewrite <- Hparts in Hin.
  destruct (length parts <? 3)%nat eqn:Hlen; [contradiction|].
  destruct (exclude_books && (3 <? length parts)%nat
            && str_eqb (nth 3 parts []) (lit "Books")) eqn:Hbooks;
    [contradiction|].
  destruct (mem (extension py name) VALID_EXTENSIONS) eqn:Hext;
    cbn [negb] in Hin; [|contradiction].
  destruct Hin as [Heq|[]]. injection Heq as <- <- <-.
  apply Nat.ltb_ge in Hlen.
  split; [exact Hlen|]. split; [exact Hext|]. split; [|split].
  - intros -> Hnth. cbn [andb] in Hbooks.
    assert (3 < length parts)%nat as H3.
    { apply nth_error_Some. rewrite Hnth. discriminate. }
    apply Nat.ltb_lt in H3. rewrite H3 in Hbooks. cbn [andb] in Hbooks.
    rewrite (nth_error_nth _ _ _ Hnth), str_eqb_refl in Hbooks. discriminate.
  - destruct parts as [|branch rest0]; [discriminate|].
    unfold build_file_url, build_s3_key, URL_PREFIX.
    rewrite year_of_returns. cbn [rbind getitem nth_error].
    eexists. split; [reflexivity|]. rewrite <- !app_assoc. reflexivity.
  - rewrite item_or_nth_error.
    destruct (nth_error parts 2) as [subject|] eqn:E.
    + exists subject. split; reflexivity.
    + apply nth_error_None in E. lia.
Qed.

Lemma collected_files_are_well_formed_witness :
  (3 <= length sample_parts)%nat /\
  mem (extension ascii_builtins (lit "a.PDF")) VALID_EXTENSIONS = true /\
  (true = true -> nth_error sample_parts 3 <> Some (lit "Books")) /\
  (exists key,
     build_s3_key ascii_builtins sample_parts (lit "a.PDF") = Ok key /\
     build_file_url ascii_builtins (lit "vault") sample_parts (lit "a.PDF")
       = Ok (URL_PREFIX (lit "vault") ++ key)) /\
  (exists subject, nth_error sample_parts 2 = Some subject /\
                   item_or sample_parts 2 UNKNOWN = subject).
Proof.
  apply (@collected_files_are_well_formed ascii_builtins 47%N (lit "/data") true
           [(lit "/data", [lit "README.md"]);
            (lit "/data/CSE/Semester 3/Maths/Notes", [lit "a.PDF"; lit "b.docx"]);
            (lit "/data/CSE/Semester 3/Maths/Books", [lit "c.pdf"])] true
           (lit "vault") (lit "/data/CSE/Semester 3/Maths/Notes") (lit "a.PDF")
           sample_parts).
  vm_compute. left. reflexivity.
Defined.

(** X19. Every file with an accepted extension is uploaded for inline
    display: a PDF as [application/pdf] with a 30-day cache, any other
    accepted file with a one-year cache. A file is uploaded as an attachment
    exactly when its extension is neither [pdf] nor an image extension. *)
Theorem accepted_files_are_served_inline (py : builtins)
        (guess_type : str -> option str) (filename : str) :
  (mem (extension py filename) VALID_EXTENSIONS = true ->
     ContentDisposition (get_s3_metadata py guess_type filename) = lit "inline" /\
     (extension py filename = lit "pdf" ->
        ContentType (get_s3_metadata py guess_type filename) = lit "application/pdf" /\
        CacheControl (get_s3_metadata py guess_type filename)
          = lit "public, max-age=2592000") /\
     (extension py filename <> lit "pdf" ->
        CacheControl (get_s3_metadata py guess_type filename)
          = lit "public, max-age=31536000")) /\
  (ContentDisposition (get_s3_metadata py guess_type filename) = lit "attachment"
   <-> extension py filename <> lit "pdf" /\
       mem (extension py filename) IMAGE_EXTENSIONS = false).
Proof.
  unfold get_s3_metadata. set (ext := extension py filename).
  split.
  - intros Hvalid. destruct (str_eqb ext (lit "pdf")) eqn:Epdf.
    + apply str_eqb_eq in Epdf. cbn.
      split; [reflexivity|]. split; [intros _; split; reflexivity|].
      intros Hx. contradiction.
    + assert (mem ext IMAGE_EXTENSIONS = true) as ->.
      { unfold mem, VALID_EXTENSIONS, IMAGE_EXTENSIONS in *.
        cbn [existsb] in *. rewrite Epdf in Hvalid.
        destruct (str_eqb ext (lit "png")), (str_eqb ext (lit "jpg")),
          (str_eqb ext (lit "jpeg")), (str_eqb ext (lit "tiff")),
          (str_eqb ext (lit "gif")); cbn in *;
          try reflexivity; try discriminate;
          rewrite ?orb_true_r; reflexivity. }
      cbn. split; [reflexivity|]. split; [|intros _; reflexivity].
      intros Hx. rewrite Hx in Epdf. rewrite str_eqb_refl in Epdf. discriminate.
  - destruct (str_eqb ext (lit "pdf")) eqn:Epdf.
    + apply str_eqb_eq in Epdf. cbn. split; [discriminate|].
      intros [H _]. contradiction.
    + destruct (mem ext IMAGE_EXTENSIONS); cbn.
      * split; [discriminate|]. intros [_ H]. discriminate.
      * split; [|reflexivity]. intros _. split; [|reflexivity].
        intros H. rewrite H, str_eqb_refl in Epdf. discriminate.
Qed.

Lemma accepted_files_are_served_inline_witness :
  ContentDisposition (get_s3_metadata ascii_builtins (fun _ => None) (lit "Scan.PNG"))
    = lit "inline" /\
  CacheControl (get_s3_metadata ascii_builtins (fun _ => None) (lit "Scan.PNG"))
    = lit "public, max-age=31536000".
Proof.
  destruct (proj1 (accepted_files_are_served_inline ascii_builtins
                     (fun _ => None) (lit "Scan.PNG")) eq_refl) as [H1 [_ H3]].
  split; [exact H1|]. apply H3. discriminate.
Defined.

(* ===================================================================== *)
(** * The failure list of the batch report *)
(* ===================================================================== *)

(** The entry [migrate_with_mode] appends to [failed_files] for a future,
    if any: only a returned status that is neither a success nor a skip is
    listed. *)
Definition failure_entry (future : res result) : list (str * str * str) :=
  match future with
  | Ok r =>
      if success r then []
      else if is_skip_reason (reason r) then []
      else [(filename_of r, reason r,
             match error_details r with
             | Some d => d
             | None => lit "no details available"
             end)]
  | Raise _ => []
  end.

Definition raised (future : res result) : bool :=
  match future with Raise _ => true | Ok _ => false end.

Lemma tally_failed_files (futures : list (res result)) (rep : report) :
  failed_files (fold_left tally futures rep) =
  failed_files rep ++ flat_map failure_entry futures.
Proof.
  revert rep. induction futures as [|f futures IH]; intros rep;
    cbn [fold_left flat_map].
  - rewrite app_nil_r. reflexivity.
  - rewrite IH. unfold tally, failure_entry. destruct f as [r|ex].
    + destruct (success r); [|destruct (is_skip_reason (reason r))];
        cbn [failed_files app]; rewrite <- ?app_assoc; reflexivity.
    + reflexivity.
Qed.

Lemma failure_entry_count (futures : list (res result)) :
  (Z.of_nat (length (flat_map failure_entry futures))
   + Z.of_nat (length (filter raised futures))
   = count_as AsFailed futures)%Z.
Proof.
  induction futures as [|f futures IH]; [reflexivity|].
  rewrite count_as_cons. cbn [flat_map filter]. rewrite length_app.
  unfold failure_entry at 1, classify, raised at 1. destruct f as [r|ex].
  - destruct (success r); [|destruct (is_skip_reason (reason r))];
      cbn [length counter_eqb app]; lia.
  - cbn [length counter_eqb app]. lia.
Qed.

(** X20. The failure list of the report holds, in completion order, one entry
    for every future that returned a failed status, and none for a future
    that raised: the [failed] counter is the length of the list plus the
    number of futures that raised. *)
Theorem failure_list_matches_counter (total_files : Z)
        (futures : list (res result)) :
  let rep := aggregate total_files futures in
  failed_files rep = flat_map failure_entry futures /\
  (failed rep = Z.of_nat (length (failed_files rep))
                + Z.of_nat (length (filter raised futures)))%Z.
Proof.
  cbv zeta. unfold aggregate.
  pose proof (tally_failed_files futures
                {| total := total_files; succeeded := 0; skipped := 0;
                   failed := 0; failed_files := [] |}) as Hl.
  destruct (tally_counts futures
                {| total := total_files; succeeded := 0; skipped := 0;
                   failed := 0; failed_files := [] |}) as [_ [_ [_ Hf]]].
  cbv zeta in Hf. cbn [failed_files failed app] in *.
  rewrite Hl, Hf. split; [reflexivity|].
  pose proof (failure_entry_count futures). lia.
Qed.

(* ===================================================================== *)
(** * Bounds on the confidence average *)
(* ===================================================================== *)

Lemma Qltb_lt (a b : Q) : Qltb a b = true <-> a < b.
Proof. unfold Qltb, Qlt. apply Z.ltb_lt. Qed.

Lemma sum_positive (l : list Q) :
  Forall (fun x => 0 < x) l -> l <> [] -> 0 < fold_right Qplus 0 l.
Proof.
  induction 1 as [|x l Hx Hl IH]; intros Hne; [contradiction|].
  cbn [fold_right]. destruct l as [|y l].
  - cbn [fold_right]. rewrite Qplus_0_r. exact Hx.
  - assert (0 < fold_right Qplus 0 (y :: l)) as Hs by (apply IH; discriminate).
    apply (Qlt_le_trans _ (x + 0)).
    + rewrite Qplus_0_r. exact Hx.
    + apply Qplus_le_compat; [apply Qle_refl|]. apply Qlt_le_weak. exact Hs.
Qed.

Lemma sum_at_most_length (l : list Q) :
  Forall (fun x => x <= 1) l ->
  fold_right Qplus 0 l <= inject_Z (Z.of_nat (length l)).
Proof.
  induction 1 as [|x l Hx Hl IH].
  - cbn. apply Qle_refl.
  - cbn [fold_right length]. rewrite Nat2Z.inj_succ, <- Z.add_1_l.
    rewrite inject_Z_plus. apply Qplus_le_compat; assumption.
Qed.

Lemma length_positive (l : list Q) :
  l <> [] -> 0 < inject_Z (Z.of_nat (length l)).
Proof.
  intros Hne. destruct l as [|x l]; [contradiction|].
  rewrite <- (Zlt_Qlt 0). cbn [length]. lia.
Qed.

(** X21. The document confidence is never negative; it is positive as soon
    as one symbol has a positive score; and it is at most 1 when no symbol
    score exceeds 1. *)
Theorem avg_confidence_bounds (a : text_annotation) :
  0 <= avg_confidence a /\
  ((exists s, In s (symbol_scores a) /\ 0 < s) -> 0 < avg_confidence a) /\
  ((forall s, In s (symbol_scores a) -> s <= 1) -> avg_confidence a <= 1).
Proof.
  unfold avg_confidence. rewrite confidence_scores_positive.
  set (p := positive_scores (symbol_scores a)).
  assert (Forall (fun x => 0 < x) p) as Hpos.
  { apply Forall_forall. intros x Hx. subst p. unfold positive_scores in Hx.
    apply filter_In in Hx. apply Qltb_lt. tauto. }
  assert (p <> [] -> 0 < average p) as Hlt.
  { intros Hne. rewrite (average_mean Hne). unfold mean.
    apply Qlt_shift_div_l; [apply length_positive; assumption|].
    rewrite Qmult_0_l. apply sum_positive; assumption. }
  split; [|split].
  - destruct p as [|x p'] eqn:E; [apply Qle_refl|].
    apply Qlt_le_weak. apply Hlt. discriminate.
  - intros [s [Hin Hs]]. apply Hlt. intros Hnil.
    assert (In s p) as Hp.
    { subst p. unfold positive_scores. apply filter_In. split; [assumption|].
      apply Qltb_lt. assumption. }
    rewrite Hnil in Hp. contradiction.
  - intros Hle. destruct p as [|x p'] eqn:E; [discriminate|].
    assert (x :: p' <> []) as Hne by discriminate.
    rewrite (average_mean Hne). unfold mean.
    apply Qle_shift_div_r; [apply length_positive; assumption|].
    rewrite Qmult_1_l. apply sum_at_most_length.
    apply Forall_forall. intros y Hy. apply Hle.
    assert (In y p) as Hyp by (rewrite E; exact Hy).
    subst p. unfold positive_scores in Hyp. apply filter_In in Hyp. tauto.
Qed.

Lemma avg_confidence_bounds_witness :
  0 < avg_confidence two_symbol_page /\ avg_confidence two_symbol_page <= 1.
Proof.
  destruct (avg_confidence_bounds two_symbol_page) as [_ [Hpos Hle]].
  split.
  - apply Hpos. exists (1 # 2). split; [left; reflexivity|reflexivity].
  - apply Hle. intros s [<-|[<-|[<-|[]]]]; discriminate.
Defined.

(* ===================================================================== *)
(** * The two scripts compared *)
(* ===================================================================== *)

Lemma pdf_full_text_concat (pages : list page_response) :
  pdf_full_text pages =
  concat (map (fun page =>
                 match page_annotation page with
                 | Some annotation => text annotation ++ [LF; LF]
                 | None => []
                 end) pages).
Proof.
  unfold pdf_full_text.
  rewrite (@for_each_append _ _
             (fun page => match page_annotation page with
                          | Some annotation => text annotation ++ [LF; LF]
                          | None => []
                          end)).
  - cbn [app]. apply flat_map_concat_map.
  - intros page acc. destruct (page_annotation page);
      [reflexivity|rewrite app_nil_r; reflexivity].
Qed.

(** X22. The dispatcher of the migration script is the dispatcher of the
    older script followed by the normalizer: on every payload and MIME type
    both return without raising, and the newer result is [clean_ocr_text] of
    the older one. *)
Theorem dispatcher_is_old_dispatcher_normalized (bytes : Type)
        (the_client : option (vision_client bytes)) (content_bytes : bytes)
        (mime_type filename : str) :
  exists old,
    Backend.extract_text_sync the_client content_bytes mime_type = Ok old /\
    extract_text_sync the_client content_bytes mime_type filename =
      Ok (clean_ocr_text old).
Proof.
  unfold Backend.extract_text_sync, extract_text_sync,
    Backend.extract_text_from_image_bytes, extract_text_from_image_bytes,
    Backend.extract_text_from_pdf_bytes, extract_text_from_pdf_bytes.
  destruct (startswith mime_type (lit "image/"));
    [|destruct (str_eqb mime_type APPLICATION_PDF)].
  - destruct the_client as [client|]; cbn [rcatch];
      [|exists None; split; reflexivity].
    destruct (document_text_detection client content_bytes) as [response|ex];
      cbn [rbind rcatch]; [|exists None; split; reflexivity].
    destruct (error_message response); cbn [rcatch];
      [|exists None; split; reflexivity].
    destruct (full_text_annotation response); cbn [rcatch];
      eexists; split; reflexivity.
  - destruct the_client as [client|]; cbn [rcatch];
      [|exists None; split; reflexivity].
    destruct (batch_annotate_files client content_bytes) as [response|ex];
      cbn [rbind rcatch]; [|exists None; split; reflexivity].
    rewrite truthy_clean, pdf_full_text_concat.
    eexists. split; [reflexivity|].
    destruct (concat _); reflexivity.
  - exists None. split; reflexivity.
Qed.

Lemma while_pages_raises (total_pages : Z)
      (body : loop_state -> res loop_state)
      (body_step : forall st st', (page_idx st < total_pages)%Z ->
         (CHUNK_MIN_PAGES <= chunk_pages st)%Z -> body st = Ok st' ->
         shrinks st st' \/ advances total_pages st st')
      (st : loop_state) (Hmin : (CHUNK_MIN_PAGES <= chunk_pages st)%Z)
      (ex : exn) :
  (page_idx st < total_pages)%Z -> body st = Raise ex ->
  while_pages total_pages body body_step st Hmin = Raise ex.
Proof.
  funelim (while_pages total_pages body body_step st Hmin); intros Hlt0 Hraise.
  - match goal with E : (_ <? _)%Z = false |- _ =>
      pose proof (proj1 (Z.ltb_ge _ _) E) end. lia.
  - congruence.
  - congruence.
Qed.

(** X23. The two scripts differ when a chunk cannot be written. If writing
    raises for every page range of a PDF that was opened, whose page tree
    was read and which has at least one page, the
    migration script drops the ranges and returns [None], while the older
    script, whose loop has no [try], raises the writer's error. *)
Theorem unwritable_chunks_old_raises_new_returns (bytes : Type)
        (bytes_len : bytes -> Z) (read_pdf : bytes -> res (pdf_document bytes))
        (the_client : option (vision_client bytes)) (pdf_bytes : bytes)
        (document : pdf_document bytes) (pdf : pdf_reader bytes)
        (filename : str) (start_chunk_pages : Z) (ex : exn) :
  read_pdf pdf_bytes = Ok document ->
  read_pages document = Ok pdf ->
  (1 <= page_count pdf)%Z ->
  (forall a b, write_pages pdf a b = Raise ex) ->
  dynamic_chunk_and_ocr_pdf bytes_len read_pdf the_client pdf_bytes filename
                            start_chunk_pages = Ok None /\
  Backend.dynamic_chunk_and_ocr_pdf bytes_len read_pdf the_client pdf_bytes
                                    start_chunk_pages = Raise ex.
Proof.
  intros Hread Hpages Htotal Hwrite.
  unfold dynamic_chunk_and_ocr_pdf, Backend.dynamic_chunk_and_ocr_pdf.
  rewrite Hread, Hpages. cbn [rbind].
  replace (page_count pdf =? 0)%Z with false by lia. split.
  - assert (exists st,
              chunk_loop bytes_len (extract_text_sync the_client) pdf filename
                         start_chunk_pages = Ok st /\ gathered_text st = [])
      as [st [Hst Hg]].
    { unfold chunk_loop.
      destruct (@while_pages_returns (page_count pdf)
                  (loop_body bytes_len (extract_text_sync the_client) pdf filename
                             start_chunk_pages)
                  (@loop_body_step _ bytes_len (extract_text_sync the_client) pdf
                                   filename start_chunk_pages)
                  (initial_state start_chunk_pages)
                  (@initial_min start_chunk_pages)) as [st Hst].
      { intros st0 _. apply loop_body_returns. }
      exists st. split; [exact Hst|].
      refine (@while_pages_invariant _ _ _ (fun s => gathered_text s = []) _
                (initial_state start_chunk_pages)
                (@initial_min start_chunk_pages) st eq_refl Hst).
      intros s s' _ _ Hs. unfold loop_body, try_chunk. rewrite Hwrite.
      cbn [rbind rcatch]. intros [= <-]. exact Hs. }
    rewrite Hst. cbn [rbind]. rewrite Hg. reflexivity.
  - unfold old_chunk_loop.
    rewrite (@while_pages_raises (page_count pdf) _ _ _ _ ex);
      [reflexivity|cbn; lia|].
    unfold old_loop_body, try_chunk. rewrite Hwrite. reflexivity.
Qed.

(** A ten-page PDF none of whose chunks can be written. *)
Definition damaged_pages : pdf_reader Z :=
  {| page_count := 10;
     write_pages := fun _ _ => Raise (OtherError (lit "damaged page object")) |}.

Lemma unwritable_chunks_old_raises_new_returns_witness :
  dynamic_chunk_and_ocr_pdf (fun n => n)
    (fun _ => Ok {| read_pages := Ok damaged_pages |})
    (Some silent_client) 0%Z (lit "big.pdf") 5 = Ok None /\
  Backend.dynamic_chunk_and_ocr_pdf (fun n => n)
    (fun _ => Ok {| read_pages := Ok damaged_pages |})
    (Some silent_client) 0%Z 5 = Raise (OtherError (lit "damaged page object")).
Proof.
  apply (@unwritable_chunks_old_raises_new_returns Z (fun n => n)
           (fun _ => Ok {| read_pages := Ok damaged_pages |})
           (Some silent_client) 0%Z {| read_pages := Ok damaged_pages |}
           damaged_pages (lit "big.pdf") 5
           (OtherError (lit "damaged page object"))).
  - reflexivity.
  - reflexivity.
  - cbn. lia.
  - reflexivity.
Defined.
